(** * DevHub dashboard: the project query pipeline of [js/app.js]

    A shallow embedding of the two classes of [src/js/app.js]
    ([Project] and [DashboardManager]) and the properties of the
    filter, search, sort and paginate steps.

    Conventions of the embedding.
    - A JavaScript string is a [string]: the bytes of its UTF-8 form.
      [===] on two strings is [=], and for well-formed strings one occurs
      in the other as code units exactly when it does as bytes.
    - An array lives in a store of arrays and is named by a reference, so
      that [Array.prototype.sort], which sorts in place, and
      [filterProjects], which may return [this.projects] itself, keep their
      aliasing.
    - The document is the part of the DOM the manager reads and writes: the
      value of [#searchInput] and of [#sortSelect], the filter buttons, the
      cards of [#projectsGrid] and the buttons of [#pagination].
    - Built-ins whose result depends on the host and its Unicode tables
      ([toLowerCase], [Date] parsing, [localeCompare],
      [toLocaleDateString]) are fields of the class [Host].
    - The modal of [showProjectDetails] is the record of the values its
      template shows; the click listener of a card returns it, where the
      code appends it to the body. *)

From Stdlib Require Import ZArith Ascii String Permutation.
From stdpp Require Import base gmap strings list sorting.

Open Scope string_scope.
Open Scope Z_scope.
Open Scope list_scope.

(** ** JavaScript values returned by a property read *)

(** What [obj[key]] can evaluate to for an object literal whose own values
    are strings: a string, [undefined], or a member inherited from
    [Object.prototype] (a built-in function, or the prototype object itself
    for [__proto__]). *)
Inductive JsValue : Type :=
  | JUndefined
  | JString (s : string)
  | JInherited (name : string).

#[global] Instance JsValue_eq_dec : EqDecision JsValue.
Proof. solve_decision. Defined.

(** The property names every object literal inherits from
    [Object.prototype]. *)
Definition Object_prototype_names : list string :=
  [ "constructor"; "hasOwnProperty"; "isPrototypeOf";
    "propertyIsEnumerable"; "toLocaleString"; "toString"; "valueOf";
    "__proto__"; "__defineGetter__"; "__defineSetter__";
    "__lookupGetter__"; "__lookupSetter__" ].

(** [obj[key]] for an object literal [{k1: v1, ...}]: own properties first,
    then the prototype chain, then [undefined]. *)
Definition getProperty (own : gmap string string) (key : string) : JsValue :=
  match own !! key with
  | Some v => JString v
  | None =>
      if decide (key ∈ Object_prototype_names) then JInherited key
      else JUndefined
  end.

(** ** class Project *)

Record Project : Type := mkProject {
  id : Z;
  nombre : string;
  estado : string;
  fechaActualizacion : string;
  tecnologias : list string;
  descripcion : string
}.

#[global] Instance Project_eq_dec : EqDecision Project.
Proof. solve_decision. Defined.

Definition statusClasses : gmap string string :=
  {[ "en-progreso" := "status-progress";
     "completados" := "status-completed";
     "pausados" := "status-paused" ]}.

Definition statusTexts : gmap string string :=
  {[ "en-progreso" := "En Progreso";
     "completados" := "Completado";
     "pausados" := "Pausado" ]}.

Definition getStatusClass (this : Project) : JsValue :=
  getProperty statusClasses (estado this).

Definition getStatusText (this : Project) : JsValue :=
  getProperty statusTexts (estado this).

(** ** Strings: [includes] and the ASCII letters *)

(** A code unit of the ASCII range, and a string made of such. *)
Definition isAsciiChar (c : ascii) : Prop := (nat_of_ascii c < 128)%nat.

Definition isAscii (s : string) : Prop :=
  Forall isAsciiChar (list_ascii_of_string s).

#[global] Instance isAsciiChar_dec c : Decision (isAsciiChar c).
Proof. unfold isAsciiChar. apply _. Defined.

#[global] Instance isAscii_dec s : Decision (isAscii s).
Proof. unfold isAscii. apply _. Defined.

(** The lower-case mapping of Unicode on the ASCII range: [A-Z] go to
    [a-z], one code unit each, and no other ASCII code unit changes.  This
    is what [String.prototype.toLowerCase] does to a string of ASCII code
    units; bytes beyond ASCII are not its business and pass through. *)
Definition asciiLowerChar (c : ascii) : ascii :=
  let n := nat_of_ascii c in
  if ((65 <=? n) && (n <=? 90))%nat then ascii_of_nat (n + 32) else c.

Fixpoint asciiLowerCase (s : string) : string :=
  match s with
  | EmptyString => EmptyString
  | String c s' => String (asciiLowerChar c) (asciiLowerCase s')
  end.

(** [s.includes(sub)]: [sub] occurs in [s] at some position. *)
Fixpoint includes (s sub : string) : bool :=
  if String.prefix sub s then true
  else match s with
       | EmptyString => false
       | String _ s' => includes s' sub
       end.

(** ** Numbers and the built-ins of [Array.prototype] *)

(** A number as the pipeline meets it: an integer or [NaN]. *)
Inductive JsNumber : Type :=
  | NaN
  | Num (z : Z).

(** [x - y] on numbers.  Time values are integers of at most 8.64e15 in
    absolute value; the floating-point difference of two of them has the
    sign of the exact difference, which is all [sort] looks at. *)
Definition Number_sub (x y : JsNumber) : JsNumber :=
  match x, y with
  | Num a, Num b => Num (a - b)
  | _, _ => NaN
  end.

(** The result of calling a comparator: [None] is [undefined] (the arrow
    function ran off its end without a [return]). *)
Definition Comparator (A : Type) : Type := A → A → option JsNumber.

(** SortCompare of ECMAScript for two defined elements: the comparator's
    result goes through ToNumber ([undefined] becomes [NaN]) and [NaN]
    counts as [+0]. *)
Definition SortCompare {A} (comparefn : Comparator A) (x y : A) : Z :=
  match comparefn x y with
  | Some (Num v) => v
  | Some NaN => 0
  | None => 0
  end.

(** [Array.prototype.sort(comparefn)] on the elements of the array.  The
    standard (ES2019 on) asks for a stable sort; with a consistent
    comparator every stable sort returns the same array, and the embedding
    takes insertion from the right: [x] goes in front of the first element
    it does not compare greater than. *)
Fixpoint sortInsert {A} (comparefn : Comparator A) (x : A) (l : list A)
  : list A :=
  match l with
  | [] => [x]
  | y :: l' =>
      if 0 <? SortCompare comparefn x y then y :: sortInsert comparefn x l'
      else x :: y :: l'
  end.

Fixpoint Array_sort {A} (comparefn : Comparator A) (l : list A) : list A :=
  match l with
  | [] => []
  | x :: l' => sortInsert comparefn x (Array_sort comparefn l')
  end.

(** [Array.prototype.slice(start, end)]: a negative index counts from the
    end, both indices are clamped to the length, and an empty range gives
    the empty array. *)
Definition Array_slice {A} (start end_ : Z) (l : list A) : list A :=
  let len := Z.of_nat (length l) in
  let k := if start <? 0 then Z.max (len + start) 0 else Z.min start len in
  let final := if end_ <? 0 then Z.max (len + end_) 0 else Z.min end_ len in
  take (Z.to_nat (final - k)) (drop (Z.to_nat k) l).

(** [Math.ceil(a / b)] for an integer [a] and a positive integer [b].  The
    quotient is a floating-point number; for [a] below 2^53 (an array length
    is below 2^32) rounding never carries it across an integer, so the
    ceiling is the exact one. *)
Definition Math_ceil_div (a b : Z) : Z := - ((- a) / b).

(** ** The host *)

(** Built-ins whose value the host decides.
    - [toLowerCase s] is [s.toLowerCase()], the lower-case mapping of the
      Unicode tables the host carries;
    - [Date_getTime s] is the time value of [new Date(s)], in milliseconds,
      and [NaN] for an invalid date;
    - [localeCompare a b] is [a.localeCompare(b)];
    - [toLocaleDateString s] is the text [formatDate] returns for the date
      string [s]. *)
Class Host : Type := {
  toLowerCase : string → string;
  Date_getTime : string → JsNumber;
  localeCompare : string → string → Z;
  toLocaleDateString : string → string
}.

(** ** The document and the manager *)

(** A card of [#projectsGrid], as [createProjectCard] fills it. *)
Record Card : Type := mkCard {
  card_data_id : Z;
  card_title : string;
  card_status_class : JsValue;
  card_status_text : JsValue;
  card_date : string;
  card_tech : list string
}.

Inductive PageButtonLabel : Type :=
  | Anterior
  | Numero (n : Z)
  | Siguiente.

(** A button of [#pagination]: its text, the [disabled] attribute, the
    [active] class and the number written into [data-page]. *)
Record PageButton : Type := mkPageButton {
  pb_label : PageButtonLabel;
  pb_disabled : bool;
  pb_active : bool;
  pb_data_page : Z
}.

(** A [.filter-btn] button: its [data-filter] and whether it carries the
    [active] class. *)
Record FilterButton : Type := mkFilterButton {
  fb_data_filter : string;
  fb_active : bool
}.

Record Document : Type := mkDocument {
  searchInput_value : string;
  sortSelect_value : string;
  filterButtons : list FilterButton;
  projectsGrid : list Card;
  pagination : list PageButton
}.

(** A reference to an array in the store. *)
Abbreviation Ref := nat (only parsing).

(** The fields of a [DashboardManager].  [projectsPerPage] is assigned 10
    in the constructor and never again, so it is a constant. *)
Record DashboardManager : Type := mkDashboardManager {
  projects : Ref;
  currentFilter : string;
  currentPage : Z
}.

Definition projectsPerPage : Z := 10.

Record World : Type := mkWorld {
  store : list (list Project);
  this : DashboardManager;
  document : Document;
  localStorage : gmap string string
}.

Definition set_store (f : list (list Project) → list (list Project))
  (w : World) : World :=
  mkWorld (f (store w)) (this w) (document w) (localStorage w).

Definition set_this (f : DashboardManager → DashboardManager) (w : World)
  : World :=
  mkWorld (store w) (f (this w)) (document w) (localStorage w).

Definition set_document (f : Document → Document) (w : World) : World :=
  mkWorld (store w) (this w) (f (document w)) (localStorage w).

Definition set_localStorage (f : gmap string string → gmap string string)
  (w : World) : World :=
  mkWorld (store w) (this w) (document w) (f (localStorage w)).

Definition with_currentFilter (v : string) (m : DashboardManager)
  : DashboardManager :=
  mkDashboardManager (projects m) v (currentPage m).

Definition with_currentPage (v : Z) (m : DashboardManager)
  : DashboardManager :=
  mkDashboardManager (projects m) (currentFilter m) v.

Definition with_searchInput_value (v : string) (d : Document) : Document :=
  mkDocument v (sortSelect_value d) (filterButtons d) (projectsGrid d)
             (pagination d).

Definition with_sortSelect_value (v : string) (d : Document) : Document :=
  mkDocument (searchInput_value d) v (filterButtons d) (projectsGrid d)
             (pagination d).

Definition with_filterButtons (v : list FilterButton) (d : Document)
  : Document :=
  mkDocument (searchInput_value d) (sortSelect_value d) v (projectsGrid d)
             (pagination d).

Definition with_projectsGrid (v : list Card) (d : Document) : Document :=
  mkDocument (searchInput_value d) (sortSelect_value d) (filterButtons d) v
             (pagination d).

Definition with_pagination (v : list PageButton) (d : Document) : Document :=
  mkDocument (searchInput_value d) (sortSelect_value d) (filterButtons d)
             (projectsGrid d) v.

(** ** A state monad over the world *)

Definition M (A : Type) : Type := World → A * World.

#[global] Instance M_ret : MRet M := λ A x w, (x, w).
#[global] Instance M_bind : MBind M :=
  λ A B f m w, let r := m w in f r.1 r.2.

Definition gets {A} (f : World → A) : M A := λ w, (f w, w).
Definition modify (f : World → World) : M unit := λ w, (tt, f w).

(** The elements of the array a reference names. *)
Definition elements (w : World) (r : Ref) : list Project :=
  default [] (store w !! r).

(** A new array with the given elements. *)
Definition newArray (l : list Project) : M Ref :=
  λ w, (length (store w), set_store (λ s, s ++ [l]) w).

(** [arr.filter(pred)] returns a new array and leaves [arr] as it is. *)
Definition Array_filter (P : Project → Prop) `{∀ x, Decision (P x)}
  (arr : Ref) : M Ref :=
  l ← gets (λ w, elements w arr);
  newArray (filter P l).

(** [arr.sort(comparefn)] sorts [arr] in place and returns [arr]. *)
Definition Array_sort_in_place (comparefn : Comparator Project) (arr : Ref)
  : M Ref :=
  l ← gets (λ w, elements w arr);
  modify (set_store (λ s, <[arr := Array_sort comparefn l]> s));;
  mret arr.

(** [arr.slice(start, end)] returns a new array. *)
Definition Array_slice_new (start end_ : Z) (arr : Ref) : M Ref :=
  l ← gets (λ w, elements w arr);
  newArray (Array_slice start end_ l).

(** ** The methods of the two classes *)

Section Methods.
Context `{Host}.

Definition formatDate (project : Project) : string :=
  toLocaleDateString (fechaActualizacion project).

Definition createProjectCard (project : Project) : Card :=
  mkCard (id project) (nombre project) (getStatusClass project)
         (getStatusText project) (formatDate project) (tecnologias project).

(** The constructor: an empty array of projects, the filter read from
    [localStorage] (['todos'] when the entry is missing or empty, by [||]),
    page 1. *)
Definition newDashboardManager (doc : Document) (ls : gmap string string)
  : World :=
  let saved := match ls !! "currentFilter" with
               | Some v => if decide (v = "") then "todos" else v
               | None => "todos"
               end in
  mkWorld [[]] (mkDashboardManager 0%nat saved 1) doc ls.

(** [loadProjectsData] once the fetch has resolved to [projectsData]:
    [this.projects] becomes a new array. *)
Definition loadProjectsData (projectsData : list Project) : M unit :=
  arr ← newArray projectsData;
  modify (set_this (λ m, mkDashboardManager arr (currentFilter m)
                                            (currentPage m))).

Definition filterProjects : M Ref :=
  self ← gets this;
  if decide (currentFilter self = "todos") then mret (projects self)
  else Array_filter (λ project, estado project = currentFilter self)
                    (projects self).

Definition searchProjects (arr : Ref) : M Ref :=
  searchInput ← gets (λ w, toLowerCase (searchInput_value (document w)));
  Array_filter
    (λ project, includes (toLowerCase (nombre project)) searchInput = true)
    arr.

(** The arrow function handed to [sort]. *)
Definition compareProjects (sortSelect : string) : Comparator Project :=
  λ a b,
    if decide (sortSelect = "fechaActualizacion") then
      Some (Number_sub (Date_getTime (fechaActualizacion b))
                       (Date_getTime (fechaActualizacion a)))
    else if decide (sortSelect = "nombre") then
      Some (Num (localeCompare (nombre a) (nombre b)))
    else if decide (sortSelect = "estado") then
      Some (Num (localeCompare (estado a) (estado b)))
    else None.

Definition sortProjects (arr : Ref) : M Ref :=
  sortSelect ← gets (λ w, sortSelect_value (document w));
  Array_sort_in_place (compareProjects sortSelect) arr.

Definition paginateProjects (arr : Ref) : M Ref :=
  page ← gets (λ w, currentPage (this w));
  let startIndex := (page - 1) * projectsPerPage in
  let endIndex := startIndex + projectsPerPage in
  Array_slice_new startIndex endIndex arr.

Definition totalPagesOf (totalProjects : Z) : Z :=
  Math_ceil_div totalProjects projectsPerPage.

(** The buttons [setupPagination] writes into [#pagination]. *)
Definition paginationButtons (page totalPages : Z) : list PageButton :=
  [mkPageButton Anterior (bool_decide (page = 1)) false (page - 1)]
  ++ map (λ i, mkPageButton (Numero (i + 1)) false
                            (bool_decide (page = i + 1)) (i + 1))
         (seqZ 0 totalPages)
  ++ [mkPageButton Siguiente (bool_decide (page = totalPages)) false
                   (page + 1)].

Definition setupPagination (totalProjects : Z) : M unit :=
  page ← gets (λ w, currentPage (this w));
  let totalPages := totalPagesOf totalProjects in
  modify (set_document (with_pagination (paginationButtons page totalPages))).

Definition loadProjects : M unit :=
  filteredProjects ← filterProjects;
  searchedProjects ← searchProjects filteredProjects;
  sortedProjects ← sortProjects searchedProjects;
  paginatedProjects ← paginateProjects sortedProjects;
  cards ← gets (λ w, map createProjectCard (elements w paginatedProjects));
  modify (set_document (with_projectsGrid cards));;
  sortedLength ← gets (λ w, Z.of_nat (length (elements w sortedProjects)));
  setupPagination sortedLength.

Definition setActiveFilter : M unit :=
  modify (λ w,
    set_document
      (λ d, with_filterButtons
              (map (λ b, mkFilterButton (fb_data_filter b)
                           (bool_decide
                              (fb_data_filter b = currentFilter (this w))))
                   (filterButtons d)) d) w).

Definition handleFilterChange (filter_ : string) : M unit :=
  modify (set_this (with_currentFilter filter_));;
  modify (set_localStorage (<["currentFilter" := filter_]>));;
  setActiveFilter;;
  modify (set_this (with_currentPage 1));;
  loadProjects.

(** *** The listeners *)

(** Click on a filter button. *)
Definition onFilterClick (button : FilterButton) : M unit :=
  handleFilterChange (fb_data_filter button).

(** [input] on [#searchInput]: the browser has put [text] into the value
    of the field, the listener calls [loadProjects]. *)
Definition onSearchInput (text : string) : M unit :=
  modify (set_document (with_searchInput_value text));;
  loadProjects.

(** [change] on [#sortSelect]. *)
Definition onSortChange (key : string) : M unit :=
  modify (set_document (with_sortSelect_value key));;
  loadProjects.

(** The body of the listener of a pagination button, from
    [page = parseInt(button.dataset.page)] on. *)
Definition setPage (page : JsNumber) : M unit :=
  match page with
  | NaN => mret tt
  | Num n =>
      modify (set_this (with_currentPage n));;
      loadProjects
  end.

(** [parseInt] of a [data-page] attribute: the attribute is the decimal
    text of the integer the template put there, and [parseInt] reads it
    back. *)
Definition parseInt_data_page (button : PageButton) : JsNumber :=
  Num (pb_data_page button).

(** Click on a pagination button; a disabled button fires no click. *)
Definition onPageClick (button : PageButton) : M unit :=
  if pb_disabled button then mret tt
  else setPage (parseInt_data_page button).

End Methods.

(** ** Notions the properties are stated with *)

(** The array a computation returns, read in the world it leaves. *)
Definition returned (m : M Ref) (w : World) : list Project :=
  elements (m w).2 (m w).1.

(** The world a computation leaves. *)
Definition exec {A} (m : M A) (w : World) : World := (m w).2.

(** Filter, search and sort, as [loadProjects] chains them. *)
Definition sortedProjectsOf `{Host} : M Ref :=
  filteredProjects ← filterProjects;
  searchedProjects ← searchProjects filteredProjects;
  sortProjects searchedProjects.

(** The page [loadProjects] shows: the three steps, then the slice. *)
Definition paginatedProjectsOf `{Host} : M Ref :=
  sortedProjects ← sortedProjectsOf;
  paginateProjects sortedProjects.

(** The records the three steps leave, computed on the contents of the
    arrays. *)
Definition searchedAndSorted `{Host} (w : World) : list Project :=
  Array_sort (compareProjects (sortSelect_value (document w)))
    (filter (λ p, includes (toLowerCase (nombre p))
                    (toLowerCase (searchInput_value (document w))) = true)
            (returned filterProjects w)).

(** The same query state on another page. *)
Definition atPage (n : Z) (w : World) : World :=
  set_this (with_currentPage n) w.

(** The same world with another text in [#searchInput]. *)
Definition withSearch (text : string) (w : World) : World :=
  set_document (with_searchInput_value text) w.

(** The number of numbered buttons in [#pagination]: the page count the
    last [loadProjects] reported. *)
Definition isNumbered (b : PageButton) : bool :=
  match pb_label b with
  | Numero _ => true
  | _ => false
  end.

Definition reportedPages (w : World) : Z :=
  Z.of_nat (length (filter (λ b, isNumbered b = true)
                           (pagination (document w)))).

(** What every host does on ASCII: [toLowerCase] of a string of ASCII code
    units is its ASCII lower-case form. *)
Definition lowersAscii `{Host} : Prop :=
  ∀ s, isAscii s → toLowerCase s = asciiLowerCase s.

(** The letters of the ASCII alphabet, capital and small, position by
    position. *)
Definition capitalLetters : string := "ABCDEFGHIJKLMNOPQRSTUVWXYZ".
Definition smallLetters : string := "abcdefghijklmnopqrstuvwxyz".

Definition letterPairs : list (ascii * ascii) :=
  zip (list_ascii_of_string capitalLetters) (list_ascii_of_string smallLetters).

(** Two code units that are the same, or the capital and the small form
    of one letter. *)
Definition sameLetter (a b : ascii) : Prop :=
  a = b ∨ (a, b) ∈ letterPairs ∨ (b, a) ∈ letterPairs.

#[global] Instance sameLetter_dec a b : Decision (sameLetter a b).
Proof. unfold sameLetter. apply _. Defined.

(** Two texts that differ in the case of their letters only: the same
    length, and the same letter at every position. *)
Definition equalIgnoringCase (a b : string) : Prop :=
  Forall2 sameLetter (list_ascii_of_string a) (list_ascii_of_string b).

#[global] Instance equalIgnoringCase_dec a b :
  Decision (equalIgnoringCase a b).
Proof. unfold equalIgnoringCase. apply _. Defined.

(** [text] occurs in [name] when the case of letters is ignored: some
    stretch of [name] is [text] up to case. *)
Definition containsIgnoringCase (name text : string) : Prop :=
  ∃ pre mid post,
    name = pre +:+ mid +:+ post ∧ equalIgnoringCase mid text.

(** The last-updated instant of a record, when its date is a valid one. *)
Definition lastUpdated `{Host} (p : Project) : option Z :=
  match Date_getTime (fechaActualizacion p) with
  | Num t => Some t
  | NaN => None
  end.

Definition timeOf `{Host} (p : Project) : Z := default 0 (lastUpdated p).

(** [a] may stand in front of [b] in an array sorted by a key, greatest
    first. *)
Definition descending {A} (key : A → Z) (a b : A) : Prop := key b ≤ key a.

(** [a] does not compare greater than [b]. *)
Definition notGreater {A} (comparefn : Comparator A) (a b : A) : Prop :=
  SortCompare comparefn a b ≤ 0.

(** The sort keys the comparator knows. *)
Definition recognizedSortKey (key : string) : Prop :=
  key = "fechaActualizacion" ∨ key = "nombre" ∨ key = "estado".

(** The known status tokens. *)
Definition knownStatus (s : string) : Prop :=
  s = "en-progreso" ∨ s = "completados" ∨ s = "pausados".

(** ** A host and a collection for the examples *)

Definition digitValue (c : ascii) : option Z :=
  let n := Z.of_nat (nat_of_ascii c) in
  if (48 <=? n) && (n <=? 57) then Some (n - 48) else None.

(** Days from 1970-01-01 to the given day of the proleptic Gregorian
    calendar. *)
Definition daysFromCivil (y m d : Z) : Z :=
  let y' := if m <=? 2 then y - 1 else y in
  let era := y' / 400 in
  let yoe := y' - era * 400 in
  let mp := if 2 <? m then m - 3 else m + 9 in
  let doy := (153 * mp + 2) / 5 + d - 1 in
  let doe := yoe * 365 + yoe / 4 - yoe / 100 + doy in
  era * 146097 + doe - 719468.

(** The time value of a date-only ISO 8601 string [YYYY-MM-DD] (midnight
    UTC); anything else is an invalid date for this host. *)
Definition isoDateTime (s : string) : JsNumber :=
  match list_ascii_of_string s with
  | [y1; y2; y3; y4; sep1; m1; m2; sep2; d1; d2] =>
      match digitValue y1, digitValue y2, digitValue y3, digitValue y4,
            digitValue m1, digitValue m2, digitValue d1, digitValue d2 with
      | Some a, Some b, Some c, Some d, Some e, Some f, Some g, Some h =>
          let y := 1000 * a + 100 * b + 10 * c + d in
          let m := 10 * e + f in
          let dd := 10 * g + h in
          if bool_decide (sep1 = "-"%char) && bool_decide (sep2 = "-"%char)
             && (1 <=? m) && (m <=? 12) && (1 <=? dd) && (dd <=? 31)
          then Num (daysFromCivil y m dd * 86400000)
          else NaN
      | _, _, _, _, _, _, _, _ => NaN
      end
  | _ => NaN
  end.

(** Comparison by code units, standing for [localeCompare]. *)
Definition codeUnitCompare (a b : string) : Z :=
  match String.compare a b with
  | Lt => -1
  | Eq => 0
  | Gt => 1
  end.

(** A host for the examples: lower case on ASCII only, ISO calendar dates,
    comparison by code units, and the date string itself as its display
    form. *)
Definition sampleHost : Host :=
  {| toLowerCase := asciiLowerCase;
     Date_getTime := isoDateTime;
     localeCompare := codeUnitCompare;
     toLocaleDateString := λ s, s |}.

(** *** A host that knows the Greek capital sigma *)

(** The capital sigma U+03A3 is the bytes CE A3; the small sigma U+03C3 is
    CF 83 and the final small sigma U+03C2 is CF 82. *)
Definition capitalSigma : list ascii := [ascii_of_nat 206; ascii_of_nat 163].
Definition smallSigma : list ascii := [ascii_of_nat 207; ascii_of_nat 131].
Definition finalSigma : list ascii := [ascii_of_nat 207; ascii_of_nat 130].

Definition isAsciiLetter (c : ascii) : bool :=
  let n := nat_of_ascii c in
  (((65 <=? n) && (n <=? 90)) || ((97 <=? n) && (n <=? 122)))%nat.

(** The ASCII code units with the property Case_Ignorable: apostrophe,
    full stop, colon, circumflex and grave accent. *)
Definition isCaseIgnorable (c : ascii) : bool :=
  bool_decide (nat_of_ascii c ∈ [39; 46; 58; 94; 96]%nat).

(** A cased letter comes next, after any case-ignorable code units. *)
Fixpoint followedByCased (l : list ascii) : bool :=
  match l with
  | [] => false
  | c :: l' =>
      if isCaseIgnorable c then followedByCased l'
      else isAsciiLetter c || bool_decide (take 2 l = capitalSigma)
  end.

(** Lower case for strings of ASCII code units and capital sigmas, as the
    Unicode default case conversion has it: the ASCII letters by the
    ASCII map, and a capital sigma to the final sigma when a cased letter
    comes before it and none after it (case-ignorable code units apart),
    to the small sigma otherwise.  [beforeCased] tells whether a cased
    letter comes before. *)
Fixpoint sigmaLower (beforeCased : bool) (l : list ascii) : list ascii :=
  match l with
  | [] => []
  | c :: l' =>
      match l' with
      | d :: l'' =>
          if bool_decide ([c; d] = capitalSigma) then
            (if beforeCased && negb (followedByCased l'') then finalSigma
             else smallSigma)
            ++ sigmaLower true l''
          else
            asciiLowerChar c
            :: sigmaLower (if isCaseIgnorable c then beforeCased
                           else isAsciiLetter c) l'
      | [] => [asciiLowerChar c]
      end
  end.

Definition sigmaLowerCase (s : string) : string :=
  string_of_list_ascii (sigmaLower false (list_ascii_of_string s)).

(** The sample host with [toLowerCase] extended to the capital sigma. *)
Definition sigmaHost : Host :=
  {| toLowerCase := sigmaLowerCase;
     Date_getTime := isoDateTime;
     localeCompare := codeUnitCompare;
     toLocaleDateString := λ s, s |}.

(** A record whose name ends in a capital sigma. *)
Definition sigmaProject : Project :=
  mkProject 1 "AΣ" "en-progreso" "2025-01-01" [] "".

(** The three records of the README. *)
Definition sampleProjects : list Project :=
  [ mkProject 1 "E-commerce Platform" "en-progreso" "2025-02-20"
      ["React"; "Node.js"; "MongoDB"] "Plataforma de comercio";
    mkProject 2 "Blog Personal" "completados" "2025-02-15"
      ["Vue.js"; "Firebase"] "Blog personal";
    mkProject 3 "App de Gestion" "pausados" "2025-02-10"
      ["Angular"; "Express"; "PostgreSQL"] "Aplicacion para gestion" ].

(** Four records, two of them of the same date. *)
Definition datedProjects : list Project :=
  [ mkProject 1 "Uno" "pausados" "2025-02-10" [] "";
    mkProject 2 "Dos" "completados" "2025-02-20" [] "";
    mkProject 3 "Tres" "en-progreso" "2025-02-10" [] "";
    mkProject 4 "Cuatro" "en-progreso" "2025-03-01" [] "" ].

(** Eleven records named [Proyecto] and one named [Blog]: two pages. *)
Definition bulkProjects : list Project :=
  map (λ i, mkProject i "Proyecto" "en-progreso" "2025-01-01" [] "")
      (seqZ 1 11)
  ++ [mkProject 12 "Blog" "completados" "2025-01-02" [] ""].

Definition sampleButtons : list FilterButton :=
  [ mkFilterButton "todos" false; mkFilterButton "en-progreso" false;
    mkFilterButton "completados" false; mkFilterButton "pausados" false ].

Definition sampleDocument (search sortKey : string) : Document :=
  mkDocument search sortKey sampleButtons [] [].

(** The world after the constructor and [loadProjectsData] on the given
    records, with the given search text and sort key in the document. *)
Definition sampleWorld (data : list Project) (search sortKey : string)
  : World :=
  exec (loadProjectsData data)
       (newDashboardManager (sampleDocument search sortKey) ∅).

(** ** The rest of the manager: start-up and the detail view *)

(** [arr.find(pred)]: the first element that passes, [None] for
    [undefined]. *)
Fixpoint Array_find {A} (pred : A → bool) (l : list A) : option A :=
  match l with
  | [] => None
  | x :: l' => if pred x then Some x else Array_find pred l'
  end.

(** [arr.join(sep)] on an array of strings. *)
Fixpoint Array_join (sep : string) (l : list string) : string :=
  match l with
  | [] => ""
  | x :: l' =>
      match l' with
      | [] => x
      | _ :: _ => x +:+ sep +:+ Array_join sep l'
      end
  end.

(** The modal [showProjectDetails] appends to the body: the values its
    template shows. *)
Record Modal : Type := mkModal {
  modal_title : string;
  modal_estado : JsValue;
  modal_fecha : string;
  modal_tecnologias : string;
  modal_descripcion : string
}.

Definition showProjectDetails `{Host} (project : Project) : Modal :=
  mkModal (nombre project) (getStatusText project) (formatDate project)
          (Array_join ", " (tecnologias project)) (descripcion project).

(** [parseInt] of the [data-id] of a card: the decimal text of the
    identifier the template wrote. *)
Definition parseInt_data_id (card : Card) : JsNumber :=
  Num (card_data_id card).

(** [p.id === projectId]; nothing is [===] to [NaN]. *)
Definition idIs (projectId : JsNumber) (p : Project) : bool :=
  match projectId with
  | NaN => false
  | Num n => bool_decide (id p = n)
  end.

(** The click listener [setupProjectCardClickEvents] puts on a card: the
    record is looked up by identifier in [this.projects] and handed to
    [showProjectDetails].  [None] is the [TypeError] of
    [showProjectDetails(undefined)], raised when [find] found nothing. *)
Definition onCardClick `{Host} (card : Card) : M (option Modal) :=
  all ← gets (λ w, elements w (projects (this w)));
  let projectId := parseInt_data_id card in
  mret (showProjectDetails <$> Array_find (idIs projectId) all).

(** [loadProjectsData] with its [try]/[catch]: [None] is a fetch that
    failed or a body that is no JSON, which the [catch] logs, leaving
    [this.projects] as it is. *)
Definition loadProjectsData_fetched (response : option (list Project))
  : M unit :=
  match response with
  | Some projectsData => loadProjectsData projectsData
  | None => mret tt
  end.

(** [init]: load the data, wire the listeners (they are the [on...]
    computations above), show the projects, mark the active filter. *)
Definition init `{Host} (response : option (list Project)) : M unit :=
  loadProjectsData_fetched response;;
  loadProjects;;
  setActiveFilter.

(** The page once [DOMContentLoaded] has built the manager and [init] has
    run to its end. *)
Definition startup `{Host} (doc : Document) (ls : gmap string string)
  (response : option (list Project)) : World :=
  exec (init response) (newDashboardManager doc ls).

(** The records of the collection. *)
Definition collection (w : World) : list Project :=
  elements w (projects (this w)).

(** A record passes the current filter and the current search text. *)
Definition matchesQuery `{Host} (w : World) (p : Project) : Prop :=
  (currentFilter (this w) = "todos" ∨ estado p = currentFilter (this w))
  ∧ includes (toLowerCase (nombre p))
             (toLowerCase (searchInput_value (document w))) = true.

#[global] Instance matchesQuery_dec `{Host} w p :
  Decision (matchesQuery w p).
Proof. unfold matchesQuery. apply _. Defined.

(** The same world with another key in [#sortSelect]. *)
Definition withSort (key : string) (w : World) : World :=
  set_document (with_sortSelect_value key) w.

(** *** The first version of the manager ([src/unnamed/part_000]) *)

(** Before search, sort and pages were added, [loadProjects] showed every
    record [filterProjects] returns, and [handleFilterChange] had no page
    to reset. *)
Definition legacy_loadProjects `{Host} : M unit :=
  filteredProjects ← filterProjects;
  cards ← gets (λ w, map createProjectCard (elements w filteredProjects));
  modify (set_document (with_projectsGrid cards)).

Definition legacy_handleFilterChange `{Host} (filter_ : string) : M unit :=
  modify (set_this (with_currentFilter filter_));;
  modify (set_localStorage (<["currentFilter" := filter_]>));;
  setActiveFilter;;
  legacy_loadProjects.

(** * Properties *)

(** ** Status label and style of a record *)

Lemma getProperty_own own key v :
  own !! key = Some v → getProperty own key = JString v.
Proof. intros Hown. unfold getProperty. by rewrite Hown. Qed.

Lemma getProperty_absent own key :
  own !! key = None → key ∉ Object_prototype_names →
  getProperty own key = JUndefined.
Proof.
  intros Hown Hproto. unfold getProperty. rewrite Hown.
  by destruct (decide (key ∈ Object_prototype_names)).
Qed.

Lemma statusClasses_lookup_None s :
  ¬ knownStatus s → statusClasses !! s = None.
Proof.
  intros Hs. unfold statusClasses, knownStatus in *.
  rewrite !lookup_insert_ne, lookup_singleton_ne; [done | naive_solver ..].
Qed.

Lemma statusTexts_lookup_None s :
  ¬ knownStatus s → statusTexts !! s = None.
Proof.
  intros Hs. unfold statusTexts, knownStatus in *.
  rewrite !lookup_insert_ne, lookup_singleton_ne; [done | naive_solver ..].
Qed.

(** For the three known tokens the two methods return the fixed style and
    label. *)
Lemma getStatus_known p :
  (estado p = "en-progreso" →
     getStatusClass p = JString "status-progress"
     ∧ getStatusText p = JString "En Progreso")
  ∧ (estado p = "completados" →
     getStatusClass p = JString "status-completed"
     ∧ getStatusText p = JString "Completado")
  ∧ (estado p = "pausados" →
     getStatusClass p = JString "status-paused"
     ∧ getStatusText p = JString "Pausado").
Proof.
  unfold getStatusClass, getStatusText.
  split; [|split]; intros ->; split; reflexivity.
Qed.

(** A status that is neither a known token nor a name found on
    [Object.prototype] gives [undefined] twice. *)
Lemma getStatus_unknown p :
  ¬ knownStatus (estado p) → estado p ∉ Object_prototype_names →
  getStatusClass p = JUndefined ∧ getStatusText p = JUndefined.
Proof.
  intros Hs Hproto. unfold getStatusClass, getStatusText.
  split; apply getProperty_absent; auto using statusClasses_lookup_None,
    statusTexts_lookup_None.
Qed.

(** C9, at the input where the code departs from it: a record whose status
    is the text [constructor] is not one of the three known tokens, and
    [statusClasses[this.estado]] and [statusTexts[this.estado]] find the
    member of that name that every object literal inherits, so neither
    method returns [undefined]. *)
Theorem getStatus_inherited_name :
  let p := mkProject 4 "Panel" "constructor" "2025-03-01" [] "" in
  ¬ knownStatus (estado p)
  ∧ getStatusClass p = JInherited "constructor"
  ∧ getStatusText p = JInherited "constructor"
  ∧ getStatusClass p ≠ JUndefined
  ∧ getStatusText p ≠ JUndefined.
Proof.
  cbn zeta. split.
  - unfold knownStatus; cbn. intros [?|[?|?]]; discriminate.
  - repeat split; try reflexivity; vm_compute; discriminate.
Qed.

(** ** What each method does to the world *)

Lemma elements_newArray w l :
  elements (set_store (λ s, s ++ [l]) w) (length (store w)) = l.
Proof.
  unfold elements; cbn. by rewrite lookup_app_r, Nat.sub_diag by lia.
Qed.

Lemma elements_newArray_old w l r :
  (r < length (store w))%nat →
  elements (set_store (λ s, s ++ [l]) w) r = elements w r.
Proof. intros Hr. unfold elements; cbn. by rewrite lookup_app_l. Qed.

Lemma elements_dangling w r :
  (length (store w) ≤ r)%nat → elements w r = [].
Proof. intros Hr. unfold elements. by rewrite lookup_ge_None_2. Qed.

Lemma elements_write w r l :
  (r < length (store w))%nat →
  elements (set_store (λ s, <[r := l]> s) w) r = l.
Proof.
  intros Hr. unfold elements; cbn. by rewrite list_lookup_insert_eq.
Qed.

Lemma filterProjects_todos w :
  currentFilter (this w) = "todos" →
  filterProjects w = (projects (this w), w).
Proof.
  intros Hf. unfold filterProjects, mbind, M_bind, gets; cbn.
  by rewrite decide_True.
Qed.

Lemma filterProjects_other w :
  currentFilter (this w) ≠ "todos" →
  filterProjects w =
    (length (store w),
     set_store (λ s, s ++ [filter (λ p, estado p = currentFilter (this w))
                                  (elements w (projects (this w)))]) w).
Proof.
  intros Hf. unfold filterProjects, mbind, M_bind, gets; cbn.
  by rewrite decide_False.
Qed.

Lemma searchProjects_eq `{Host} w arr :
  searchProjects arr w =
    (length (store w),
     set_store
       (λ s, s ++ [filter
                     (λ p, includes (toLowerCase (nombre p))
                             (toLowerCase (searchInput_value (document w)))
                           = true)
                     (elements w arr)]) w).
Proof. reflexivity. Qed.

Lemma sortProjects_eq `{Host} w arr :
  sortProjects arr w =
    (arr,
     set_store
       (λ s, <[arr := Array_sort
                        (compareProjects (sortSelect_value (document w)))
                        (elements w arr)]> s) w).
Proof. reflexivity. Qed.

Lemma paginateProjects_eq w arr :
  paginateProjects arr w =
    (length (store w),
     set_store
       (λ s, s ++ [Array_slice
                     ((currentPage (this w) - 1) * projectsPerPage)
                     ((currentPage (this w) - 1) * projectsPerPage
                      + projectsPerPage)
                     (elements w arr)]) w).
Proof. reflexivity. Qed.

Lemma returned_searchProjects `{Host} w arr :
  returned (searchProjects arr) w =
    filter (λ p, includes (toLowerCase (nombre p))
                   (toLowerCase (searchInput_value (document w))) = true)
           (elements w arr).
Proof.
  unfold returned. rewrite searchProjects_eq; cbn [fst snd].
  apply elements_newArray.
Qed.

Lemma returned_sortProjects `{Host} w arr :
  returned (sortProjects arr) w =
    Array_sort (compareProjects (sortSelect_value (document w)))
               (elements w arr).
Proof.
  unfold returned. rewrite sortProjects_eq; cbn [fst snd].
  destruct (decide (arr < length (store w))%nat) as [Hlt|Hge].
  - by apply elements_write.
  - rewrite (elements_dangling w arr) by lia.
    apply elements_dangling; cbn. rewrite length_insert. lia.
Qed.

Lemma returned_paginateProjects w arr :
  returned (paginateProjects arr) w =
    Array_slice ((currentPage (this w) - 1) * projectsPerPage)
                ((currentPage (this w) - 1) * projectsPerPage
                 + projectsPerPage)
                (elements w arr).
Proof.
  unfold returned. rewrite paginateProjects_eq; cbn [fst snd].
  apply elements_newArray.
Qed.

(** ** Filter *)

(** C2: with a filter other than ['todos'] every record of the array
    [filterProjects] returns has that status; with ['todos'] the method
    returns the array of the collection itself, so nothing is lost. *)
Theorem filterProjects_by_status (w : World) :
  (currentFilter (this w) ≠ "todos" →
     Forall (λ p, estado p = currentFilter (this w))
            (returned filterProjects w))
  ∧ (currentFilter (this w) = "todos" →
     (filterProjects w).1 = projects (this w)
     ∧ returned filterProjects w = elements w (projects (this w))
     ∧ length (returned filterProjects w)
       = length (elements w (projects (this w)))).
Proof.
  split; intros Hf.
  - unfold returned. rewrite filterProjects_other by done; cbn [fst snd].
    rewrite elements_newArray. apply Forall_forall. intros p Hp.
    by apply list_elem_of_filter in Hp as [Hp _].
  - unfold returned. by rewrite filterProjects_todos.
Qed.

Lemma filterProjects_by_status_witness :
  Forall (λ p, estado p = "completados")
         (returned filterProjects
            (set_this (with_currentFilter "completados")
                      (sampleWorld sampleProjects "" "nombre")))
  ∧ returned filterProjects (sampleWorld sampleProjects "" "nombre")
    = sampleProjects.
Proof.
  split.
  - apply (proj1 (filterProjects_by_status
                    (set_this (with_currentFilter "completados")
                              (sampleWorld sampleProjects "" "nombre")))).
    vm_compute. discriminate.
  - apply (proj2 (filterProjects_by_status
                    (sampleWorld sampleProjects "" "nombre"))).
    reflexivity.
Defined.

(** ** Search *)

Lemma append_nil_l (t : string) : "" +:+ t = t.
Proof. reflexivity. Qed.

Lemma append_cons (c : ascii) (a b : string) :
  String c a +:+ b = String c (a +:+ b).
Proof. reflexivity. Qed.

Lemma prefix_nil (s : string) : String.prefix "" s = true.
Proof. by destruct s. Qed.

Lemma prefix_cons (c d : ascii) (p s : string) :
  String.prefix (String c p) (String d s)
  = if ascii_dec c d then String.prefix p s else false.
Proof. reflexivity. Qed.

Lemma prefix_app (p s : string) :
  String.prefix p s = true ↔ ∃ t, s = p +:+ t.
Proof.
  revert s. induction p as [|c p IH]; intros s.
  - rewrite prefix_nil. split; [|done]. intros _. by exists s.
  - destruct s as [|d s].
    + split; [done | intros [t Ht]; discriminate].
    + rewrite prefix_cons. destruct (ascii_dec c d) as [->|Hne].
      * rewrite IH. split; intros [t Ht]; exists t;
          rewrite append_cons in *; congruence.
      * split; [done | intros [t Ht]; rewrite append_cons in Ht; congruence].
Qed.

Lemma includes_unfold (s sub : string) :
  includes s sub =
    if String.prefix sub s then true
    else match s with
         | EmptyString => false
         | String _ s' => includes s' sub
         end.
Proof. by destruct s. Qed.

Lemma includes_occurs (s sub : string) :
  includes s sub = true ↔ ∃ pre post, s = pre +:+ sub +:+ post.
Proof.
  split.
  - induction s as [|c s IH]; rewrite includes_unfold;
      destruct (String.prefix sub _) eqn:Hp; try done.
    + apply prefix_app in Hp as [t ->]. by exists "", t.
    + apply prefix_app in Hp as [t ->]. by exists "", t.
    + intros [pre [post ->]]%IH. by exists (String c pre), post.
  - intros [pre [post ->]]. induction pre as [|c pre IH].
    + rewrite includes_unfold, append_nil_l.
      replace (String.prefix sub (sub +:+ post)) with true; [done|].
      symmetry. apply prefix_app. by exists post.
    + rewrite includes_unfold, append_cons, IH. by case_match.
Qed.

Lemma asciiLowerCase_app (a b : string) :
  asciiLowerCase (a +:+ b) = asciiLowerCase a +:+ asciiLowerCase b.
Proof.
  induction a as [|c a IH]; [done|].
  rewrite append_cons. cbn [asciiLowerCase]. by rewrite IH, append_cons.
Qed.

Lemma asciiLowerCase_split (s a b : string) :
  asciiLowerCase s = a +:+ b →
  ∃ sa sb, s = sa +:+ sb ∧ asciiLowerCase sa = a ∧ asciiLowerCase sb = b.
Proof.
  revert s. induction a as [|c a IH]; intros s Hs.
  - by exists "", s.
  - destruct s as [|d s]; [discriminate|].
    rewrite append_cons in Hs. cbn [asciiLowerCase] in Hs.
    injection Hs as Hc Hs. destruct (IH _ Hs) as (sa & sb & -> & Ha & Hb).
    exists (String d sa), sb. rewrite append_cons. cbn [asciiLowerCase].
    by rewrite Hc, Ha.
Qed.

Lemma nat_of_ascii_inj (a b : ascii) :
  nat_of_ascii a = nat_of_ascii b → a = b.
Proof.
  intros Hab. rewrite <- (ascii_nat_embedding a), <- (ascii_nat_embedding b).
  by rewrite Hab.
Qed.

Lemma ascii_of_nat_eq (n : nat) (b : ascii) :
  (n < 256)%nat → ascii_of_nat n = b ↔ n = nat_of_ascii b.
Proof.
  intros Hn. split.
  - intros <-. by rewrite nat_ascii_embedding.
  - intros ->. apply ascii_nat_embedding.
Qed.

(** The pairs of the two alphabets are the code units 65 to 90, each with
    the code unit 32 further on. *)
Lemma letterPairs_codes (a b : ascii) :
  (a, b) ∈ letterPairs
  ↔ (65 ≤ nat_of_ascii a ≤ 90)%nat
    ∧ nat_of_ascii b = (nat_of_ascii a + 32)%nat.
Proof.
  split.
  - intros Hin. vm_compute in Hin.
    repeat (apply elem_of_cons in Hin as [[= -> ->]|Hin];
            [vm_compute; lia|]).
    by apply elem_of_nil in Hin.
  - intros [Ha Hb].
    assert (Hall : Forall (λ n, (ascii_of_nat n, ascii_of_nat (n + 32))
                                ∈ letterPairs) (seq 65 26)).
    { apply (bool_decide_unpack _). vm_compute. reflexivity. }
    rewrite Forall_forall in Hall.
    specialize (Hall (nat_of_ascii a)). rewrite <- Hb in Hall.
    rewrite !ascii_nat_embedding in Hall. apply Hall, elem_of_seq. lia.
Qed.

Lemma asciiLowerChar_code (a : ascii) :
  nat_of_ascii (asciiLowerChar a)
  = if ((65 <=? nat_of_ascii a) && (nat_of_ascii a <=? 90))%nat
    then (nat_of_ascii a + 32)%nat else nat_of_ascii a.
Proof.
  unfold asciiLowerChar.
  destruct (Nat.leb_spec 65 (nat_of_ascii a)),
           (Nat.leb_spec (nat_of_ascii a) 90); cbn [andb]; try done.
  apply nat_ascii_embedding. lia.
Qed.

(** The ASCII map sends two code units to the same one exactly when they
    are the same letter: the map agrees with the two alphabets. *)
Lemma asciiLowerChar_sameLetter (a b : ascii) :
  asciiLowerChar a = asciiLowerChar b ↔ sameLetter a b.
Proof.
  unfold sameLetter. rewrite !letterPairs_codes.
  assert (Hlow : asciiLowerChar a = asciiLowerChar b
                 ↔ nat_of_ascii (asciiLowerChar a)
                   = nat_of_ascii (asciiLowerChar b)).
  { split; [by intros -> | apply nat_of_ascii_inj]. }
  assert (Hab : a = b ↔ nat_of_ascii a = nat_of_ascii b).
  { split; [by intros -> | apply nat_of_ascii_inj]. }
  rewrite Hlow, Hab, !asciiLowerChar_code.
  destruct (Nat.leb_spec 65 (nat_of_ascii a)),
           (Nat.leb_spec (nat_of_ascii a) 90),
           (Nat.leb_spec 65 (nat_of_ascii b)),
           (Nat.leb_spec (nat_of_ascii b) 90); cbn [andb]; lia.
Qed.

Lemma asciiLowerCase_equalIgnoringCase (s t : string) :
  asciiLowerCase s = asciiLowerCase t ↔ equalIgnoringCase s t.
Proof.
  unfold equalIgnoringCase. revert t.
  induction s as [|c s IH]; intros [|d t]; cbn.
  - split; [constructor | done].
  - split; [done | intros Hf; inversion Hf].
  - split; [done | intros Hf; inversion Hf].
  - split.
    + intros [= Hc Hs]. constructor; [by apply asciiLowerChar_sameLetter|].
      by apply IH.
    + intros Hf. apply Forall2_cons in Hf as [Hc Hs].
      apply asciiLowerChar_sameLetter in Hc. apply IH in Hs. congruence.
Qed.

(** On the ASCII lower-case forms, [includes] is the occurrence of the
    text up to the case of letters. *)
Lemma includes_asciiLowerCase (name text : string) :
  includes (asciiLowerCase name) (asciiLowerCase text) = true
  ↔ containsIgnoringCase name text.
Proof.
  rewrite includes_occurs. unfold containsIgnoringCase. split.
  - intros (pre' & post' & Hname).
    apply asciiLowerCase_split in Hname as (pre & rest & -> & _ & Hrest).
    apply asciiLowerCase_split in Hrest as (mid & post & -> & Hmid & _).
    exists pre, mid, post. split; [done|].
    by apply asciiLowerCase_equalIgnoringCase.
  - intros (pre & mid & post & -> & Hmid).
    apply asciiLowerCase_equalIgnoringCase in Hmid.
    exists (asciiLowerCase pre), (asciiLowerCase post).
    by rewrite !asciiLowerCase_app, Hmid.
Qed.

Lemma includes_empty (s : string) : includes s "" = true.
Proof. apply includes_occurs. by exists "", s. Qed.

Section Search.
Context `{Host}.

(** C3, as the code has it: [searchProjects] keeps, in their order,
    exactly the records whose name in lower case contains the search text
    in lower case, both by the host's [toLowerCase].  On a host that lowers
    ASCII as every host does: for a name and a text of ASCII code units
    this is the occurrence of the text in the name up to the case of
    letters; two ASCII texts that differ in case only, such as [REACT] and
    [react], give the same array for every collection; and the empty text
    keeps every record. *)
Theorem searchProjects_ignores_case (w : World) (arr : Ref) (text : string) :
  lowersAscii →
  let found := returned (searchProjects arr) (withSearch text w) in
  (∀ p, p ∈ found
        ↔ p ∈ elements w arr
          ∧ includes (toLowerCase (nombre p)) (toLowerCase text) = true)
  ∧ sublist found (elements w arr)
  ∧ (isAscii text →
     ∀ p, isAscii (nombre p) →
          (p ∈ found
           ↔ p ∈ elements w arr ∧ containsIgnoringCase (nombre p) text))
  ∧ (∀ text', isAscii text → isAscii text' → equalIgnoringCase text' text →
       returned (searchProjects arr) (withSearch text' w) = found)
  ∧ returned (searchProjects arr) (withSearch "REACT" w)
    = returned (searchProjects arr) (withSearch "react" w)
  ∧ returned (searchProjects arr) (withSearch "" w) = elements w arr.
Proof.
  intros Hascii. cbn zeta. rewrite !returned_searchProjects.
  change (elements (withSearch _ w) arr) with (elements w arr).
  change (searchInput_value (document (withSearch ?t w))) with t.
  split; [|split; [|split; [|split; [|split]]]].
  - intros p. rewrite list_elem_of_filter. tauto.
  - apply sublist_filter.
  - intros Htext p Hname.
    rewrite list_elem_of_filter, (Hascii _ Htext), (Hascii _ Hname).
    rewrite includes_asciiLowerCase. tauto.
  - intros text' Htext Htext' Heq. rewrite returned_searchProjects.
    change (elements (withSearch _ w) arr) with (elements w arr).
    change (searchInput_value (document (withSearch ?t w))) with t.
    apply asciiLowerCase_equalIgnoringCase in Heq.
    by rewrite (Hascii _ Htext), (Hascii _ Htext'), Heq.
  - rewrite !Hascii by (apply (bool_decide_unpack _); by vm_compute).
    reflexivity.
  - rewrite (Hascii "") by constructor. cbn [asciiLowerCase].
    induction (elements w arr) as [|p l IH]; [done|].
    rewrite filter_cons_True; [by f_equal | apply includes_empty].
Qed.

End Search.

Lemma searchProjects_ignores_case_witness :
  returned (searchProjects (H := sampleHost) 1%nat)
           (withSearch "BLOG" (sampleWorld sampleProjects "" "nombre"))
  = returned (searchProjects (H := sampleHost) 1%nat)
             (withSearch "blog" (sampleWorld sampleProjects "" "nombre")).
Proof.
  apply (proj1 (proj2 (proj2 (proj2
           (searchProjects_ignores_case (H := sampleHost)
              (sampleWorld sampleProjects "" "nombre") 1%nat "blog"
              (λ s _, eq_refl)))))).
  - apply (bool_decide_unpack _). vm_compute. reflexivity.
  - apply (bool_decide_unpack _). vm_compute. reflexivity.
  - apply (bool_decide_unpack _). vm_compute. reflexivity.
Defined.

Example search_blog :
  map nombre
      (returned (searchProjects (H := sampleHost) 1%nat)
                (withSearch "blog" (sampleWorld sampleProjects "" "nombre")))
  = ["Blog Personal"].
Proof. reflexivity. Qed.

(** *** Beyond ASCII: the capital sigma *)

Lemma sigmaLower_ascii (beforeCased : bool) (l : list ascii) :
  Forall isAsciiChar l → sigmaLower beforeCased l = map asciiLowerChar l.
Proof.
  revert beforeCased. induction l as [|c l IH]; intros beforeCased Hl; [done|].
  apply Forall_cons in Hl as [Hc Hl].
  destruct l as [|d l]; [done|].
  cbn [sigmaLower map]. rewrite bool_decide_eq_false_2.
  - f_equal. by apply IH.
  - intros [= -> _]. unfold isAsciiChar in Hc. vm_compute in Hc. lia.
Qed.

Lemma asciiLowerCase_map (s : string) :
  string_of_list_ascii (map asciiLowerChar (list_ascii_of_string s))
  = asciiLowerCase s.
Proof. induction s as [|c s IH]; cbn; [done | by rewrite IH]. Qed.

(** The sigma host lowers ASCII as every host does. *)
Lemma sigmaHost_lowersAscii : lowersAscii (H := sigmaHost).
Proof.
  intros s Hs. cbn. unfold sigmaLowerCase.
  by rewrite sigmaLower_ascii, asciiLowerCase_map.
Qed.

(** C3 fails as stated.  The name [AΣ] contains the text [Σ] as it stands;
    [toLowerCase] turns the name into [aς], with the final sigma, and the
    text into [σ], so [includes] fails and the record is dropped. *)
Lemma searchProjects_drops_final_sigma :
  let w := withSearch "Σ" (sampleWorld [sigmaProject] "" "nombre") in
  sigmaProject ∈ elements w 1%nat
  ∧ nombre sigmaProject = "A" +:+ "Σ" +:+ ""
  ∧ containsIgnoringCase (nombre sigmaProject) "Σ"
  ∧ toLowerCase (Host := sigmaHost) (nombre sigmaProject) = "aς"
  ∧ toLowerCase (Host := sigmaHost) "Σ" = "σ"
  ∧ returned (searchProjects (H := sigmaHost) 1%nat) w = []
  ∧ sigmaProject ∉ returned (searchProjects (H := sigmaHost) 1%nat) w.
Proof.
  cbn zeta.
  assert (Hret : returned (searchProjects (H := sigmaHost) 1%nat)
                   (withSearch "Σ" (sampleWorld [sigmaProject] "" "nombre"))
                 = []) by (by vm_compute).
  split; [vm_compute; apply list_elem_of_singleton; reflexivity|].
  split; [reflexivity|]. split.
  - exists "A", "Σ", "". split; [reflexivity|].
    apply asciiLowerCase_equalIgnoringCase. reflexivity.
  - split; [by vm_compute|]. split; [by vm_compute|]. split; [done|].
    rewrite Hret. apply not_elem_of_nil.
Qed.

(** ** Sort *)

Section ArraySort.
Context {A : Type} (comparefn : Comparator A).

Lemma sortInsert_perm (x : A) (l : list A) :
  sortInsert comparefn x l ≡ₚ x :: l.
Proof.
  induction l as [|y l IH]; cbn; [done|].
  case_match; [|done]. rewrite IH. apply Permutation_swap.
Qed.

Lemma Array_sort_perm (l : list A) : Array_sort comparefn l ≡ₚ l.
Proof.
  induction l as [|x l IH]; cbn; [done|].
  by rewrite sortInsert_perm, IH.
Qed.

Lemma Array_sort_length (l : list A) :
  length (Array_sort comparefn l) = length l.
Proof. apply Permutation_length, Array_sort_perm. Qed.

(** A comparator that never answers a positive number leaves every array
    as it is. *)
Lemma Array_sort_never_greater (l : list A) :
  (∀ x y, SortCompare comparefn x y ≤ 0) → Array_sort comparefn l = l.
Proof.
  intros Hle. induction l as [|x l IH]; cbn; [done|]. rewrite IH.
  destruct l as [|y l]; cbn; [done|].
  destruct (Z.ltb_spec 0 (SortCompare comparefn x y)); [|done].
  specialize (Hle x y). lia.
Qed.

(** The comparator orders the elements that satisfy [ok] by a key,
    greatest key first. *)
Context (key : A → Z) (ok : A → Prop).
Hypothesis comparefn_key :
  ∀ x y, ok x → ok y → SortCompare comparefn x y = key y - key x.

Lemma sortInsert_ok (x : A) (l : list A) :
  ok x → Forall ok l → Forall ok (sortInsert comparefn x l).
Proof.
  intros Hx Hl. eapply Permutation_Forall; [|apply Forall_cons_2; eauto].
  symmetry. apply sortInsert_perm.
Qed.

Lemma Array_sort_ok (l : list A) :
  Forall ok l → Forall ok (Array_sort comparefn l).
Proof.
  intros Hl. eapply Permutation_Forall; [|exact Hl].
  symmetry. apply Array_sort_perm.
Qed.

Lemma sortInsert_sorted (x : A) (l : list A) :
  ok x → Forall ok l → Sorted (descending key) l →
  Sorted (descending key) (sortInsert comparefn x l).
Proof.
  intros Hx Hl Hs. induction l as [|y l IH]; cbn.
  - repeat constructor.
  - apply Forall_cons in Hl as [Hy Hl].
    apply Sorted_inv in Hs as [Hs Hhd].
    rewrite (comparefn_key x y) by done.
    destruct (Z.ltb_spec 0 (key y - key x)).
    + constructor; [by apply IH|].
      destruct l as [|z l]; cbn.
      * constructor. unfold descending. lia.
      * apply Forall_cons in Hl as [Hz Hl].
        rewrite (comparefn_key x z) by done.
        apply HdRel_inv in Hhd.
        destruct (Z.ltb_spec 0 (key z - key x)); constructor;
          unfold descending in *; lia.
    + constructor; [by constructor|]. constructor. unfold descending. lia.
Qed.

Lemma Array_sort_sorted (l : list A) :
  Forall ok l → Sorted (descending key) (Array_sort comparefn l).
Proof.
  induction l as [|x l IH]; cbn; intros Hl; [constructor|].
  apply Forall_cons in Hl as [Hx Hl].
  apply sortInsert_sorted; auto using Array_sort_ok.
Qed.

(** Insertion moves the new element past elements of a greater key only,
    so the elements of any one key keep their order. *)
Lemma sortInsert_stable (t : Z) (x : A) (l : list A) :
  ok x → Forall ok l →
  filter (λ a, key a = t) (sortInsert comparefn x l)
  = filter (λ a, key a = t) (x :: l).
Proof.
  intros Hx Hl. induction l as [|y l IH]; cbn [sortInsert]; [done|].
  apply Forall_cons in Hl as [Hy Hl].
  rewrite (comparefn_key x y) by done.
  destruct (Z.ltb_spec 0 (key y - key x)); [|done].
  rewrite (filter_cons _ y), IH by done.
  rewrite (filter_cons _ x (y :: l)), (filter_cons _ y l), (filter_cons _ x l).
  repeat case_decide; try done; lia.
Qed.

Lemma Array_sort_stable (t : Z) (l : list A) :
  Forall ok l →
  filter (λ a, key a = t) (Array_sort comparefn l)
  = filter (λ a, key a = t) l.
Proof.
  induction l as [|x l IH]; cbn [Array_sort]; intros Hl; [done|].
  apply Forall_cons in Hl as [Hx Hl].
  rewrite sortInsert_stable by auto using Array_sort_ok.
  by rewrite !filter_cons, IH.
Qed.

Lemma Sorted_adjacent (l : list A) (i : nat) (a b : A) :
  Sorted (descending key) l → l !! i = Some a → l !! S i = Some b →
  key b ≤ key a.
Proof.
  intros Hs. revert i. induction Hs as [|x l Hs IH Hhd]; intros i Ha Hb.
  - done.
  - destruct i as [|i]; cbn in *.
    + injection Ha as ->. destruct Hhd as [|y l Hxy]; [done|].
      cbn in Hb. by injection Hb as ->.
    + by eapply IH.
Qed.

Lemma Array_sort_adjacent (l : list A) (i : nat) (a b : A) :
  Forall ok l →
  Array_sort comparefn l !! i = Some a →
  Array_sort comparefn l !! S i = Some b →
  key b ≤ key a.
Proof. intros Hl. apply Sorted_adjacent. by apply Array_sort_sorted. Qed.

End ArraySort.

Section SortProjects.
Context `{Host}.

Lemma compareProjects_fechaActualizacion (a b : Project) :
  is_Some (lastUpdated a) → is_Some (lastUpdated b) →
  SortCompare (compareProjects "fechaActualizacion") a b
  = timeOf b - timeOf a.
Proof.
  unfold SortCompare, compareProjects, timeOf, lastUpdated.
  rewrite decide_True by done.
  destruct (Date_getTime (fechaActualizacion a)),
           (Date_getTime (fechaActualizacion b)); cbn;
    intros [? ?] [? ?]; done.
Qed.

Lemma compareProjects_unrecognized (key : string) (a b : Project) :
  ¬ recognizedSortKey key → compareProjects key a b = None.
Proof.
  intros Hkey. unfold compareProjects, recognizedSortKey in *.
  repeat case_decide; tauto.
Qed.

(** C5: with the sort key [fechaActualizacion] and records whose dates are
    valid, the array [sortProjects] returns has its records most recent
    first, every adjacent pair in that order; the records of any one date
    keep the order they had; and the array holds the same records as
    before. *)
Theorem sortProjects_lastUpdated_descending (w : World) (arr : Ref) :
  sortSelect_value (document w) = "fechaActualizacion" →
  Forall (λ p, is_Some (lastUpdated p)) (elements w arr) →
  let sorted := returned (sortProjects arr) w in
  (∀ i a b, sorted !! i = Some a → sorted !! S i = Some b →
            timeOf b ≤ timeOf a)
  ∧ (∀ t, filter (λ p, timeOf p = t) sorted
          = filter (λ p, timeOf p = t) (elements w arr))
  ∧ sorted ≡ₚ elements w arr.
Proof.
  intros Hkey Hvalid sorted. subst sorted.
  rewrite returned_sortProjects, Hkey.
  split; [|split].
  - intros i a b Ha Hb.
    eapply (Array_sort_adjacent _ timeOf (λ p, is_Some (lastUpdated p)));
      eauto using compareProjects_fechaActualizacion.
  - intros t.
    apply (Array_sort_stable _ timeOf (λ p, is_Some (lastUpdated p)));
      eauto using compareProjects_fechaActualizacion.
  - apply Array_sort_perm.
Qed.

(** C10: with a sort key that is none of [fechaActualizacion], [nombre]
    and [estado] the comparator returns [undefined] for every pair, and
    [sortProjects] returns the array with its records in the order they
    had; the store is as it was. *)
Theorem sortProjects_unrecognized_key (w : World) (arr : Ref) :
  ¬ recognizedSortKey (sortSelect_value (document w)) →
  (∀ a b, compareProjects (sortSelect_value (document w)) a b = None)
  ∧ (sortProjects arr w).1 = arr
  ∧ returned (sortProjects arr) w = elements w arr
  ∧ store (exec (sortProjects arr) w) = store w.
Proof.
  intros Hkey.
  assert (Hsame : ∀ l, Array_sort
                         (compareProjects (sortSelect_value (document w))) l
                       = l).
  { intros l. apply Array_sort_never_greater. intros x y.
    unfold SortCompare. by rewrite compareProjects_unrecognized. }
  split; [|split; [|split]].
  - intros a b. by apply compareProjects_unrecognized.
  - reflexivity.
  - by rewrite returned_sortProjects.
  - unfold exec. rewrite sortProjects_eq; cbn. rewrite Hsame.
    apply list_insert_id'. intros Hlt. unfold elements.
    by destruct (lookup_lt_is_Some_2 (store w) arr Hlt) as [l ->].
Qed.

End SortProjects.

Lemma sortProjects_lastUpdated_descending_witness :
  let w := sampleWorld datedProjects "" "fechaActualizacion" in
  let sorted := returned (sortProjects (H := sampleHost) 1%nat) w in
  (∀ i a b, sorted !! i = Some a → sorted !! S i = Some b →
            timeOf (H := sampleHost) b ≤ timeOf (H := sampleHost) a)
  ∧ (∀ t, filter (λ p, timeOf (H := sampleHost) p = t) sorted
          = filter (λ p, timeOf (H := sampleHost) p = t) (elements w 1%nat))
  ∧ sorted ≡ₚ elements w 1%nat.
Proof.
  apply (sortProjects_lastUpdated_descending (H := sampleHost)
           (sampleWorld datedProjects "" "fechaActualizacion") 1%nat).
  - reflexivity.
  - apply (bool_decide_unpack _). vm_compute. reflexivity.
Defined.

Example sortProjects_by_date :
  map id (returned (sortProjects (H := sampleHost) 1%nat)
                   (sampleWorld datedProjects "" "fechaActualizacion"))
  = [4; 2; 1; 3].
Proof. reflexivity. Qed.

Lemma sortProjects_unrecognized_key_witness :
  returned (sortProjects (H := sampleHost) 1%nat)
           (sampleWorld datedProjects "" "tecnologias")
  = datedProjects.
Proof.
  apply (sortProjects_unrecognized_key (H := sampleHost)
           (sampleWorld datedProjects "" "tecnologias") 1%nat).
  unfold recognizedSortKey. cbn. intros [?|[?|?]]; discriminate.
Defined.

(** ** The chain of [loadProjects] *)

Lemma filterProjects_frame (w : World) :
  this (exec filterProjects w) = this w
  ∧ document (exec filterProjects w) = document w
  ∧ localStorage (exec filterProjects w) = localStorage w
  ∧ ∃ fresh, store (exec filterProjects w) = store w ++ fresh.
Proof.
  unfold exec.
  destruct (decide (currentFilter (this w) = "todos")) as [Hf|Hf].
  - rewrite filterProjects_todos by done. cbn. repeat split.
    exists []. by rewrite app_nil_r.
  - rewrite filterProjects_other by done. cbn. repeat split. eauto.
Qed.

Section LoadProjects.
Context `{Host}.

Lemma sortedProjectsOf_eq (w : World) :
  sortedProjectsOf w =
    (length (store (exec filterProjects w)),
     set_store (λ s, s ++ [searchedAndSorted w]) (exec filterProjects w)).
Proof.
  destruct (filterProjects_frame w) as (Ht & Hd & Hl & fresh & Hs).
  unfold sortedProjectsOf, mbind, M_bind. cbn zeta.
  rewrite searchProjects_eq. cbn [fst snd].
  rewrite sortProjects_eq. cbn [fst snd]. f_equal.
  unfold set_store. cbn. unfold exec in *. rewrite Hd. f_equal.
  rewrite insert_app_r_alt by lia. rewrite Nat.sub_diag. cbn.
  do 3 f_equal. unfold elements. cbn.
  by rewrite lookup_app_r, Nat.sub_diag by lia.
Qed.

Lemma returned_sortedProjectsOf (w : World) :
  returned sortedProjectsOf w = searchedAndSorted w.
Proof.
  unfold returned. rewrite sortedProjectsOf_eq. cbn [fst snd].
  apply elements_newArray.
Qed.

Lemma paginatedProjectsOf_eq (w : World) :
  paginatedProjectsOf w =
    (S (length (store (exec filterProjects w))),
     set_store
       (λ s, s ++ [searchedAndSorted w;
                   Array_slice ((currentPage (this w) - 1) * projectsPerPage)
                     ((currentPage (this w) - 1) * projectsPerPage
                      + projectsPerPage) (searchedAndSorted w)])
       (exec filterProjects w)).
Proof.
  destruct (filterProjects_frame w) as (Ht & Hd & Hl & fresh & Hs).
  unfold paginatedProjectsOf, mbind, M_bind. cbn zeta.
  rewrite sortedProjectsOf_eq. cbn [fst snd].
  rewrite paginateProjects_eq. rewrite elements_newArray. cbn.
  rewrite Ht. f_equal.
  - rewrite length_app. cbn. lia.
  - unfold set_store. cbn. f_equal. by rewrite <- app_assoc.
Qed.

Lemma returned_paginatedProjectsOf (w : World) :
  returned paginatedProjectsOf w =
    Array_slice ((currentPage (this w) - 1) * projectsPerPage)
                ((currentPage (this w) - 1) * projectsPerPage
                 + projectsPerPage)
                (searchedAndSorted w).
Proof.
  unfold returned. rewrite paginatedProjectsOf_eq. cbn [fst snd].
  unfold elements, set_store. cbn [store].
  rewrite lookup_app_r by lia.
  by replace (S _ - _)%nat with 1%nat by lia.
Qed.

(** [loadProjects] is the chain followed by the two writes into the
    document: the cards of the page and the pagination buttons. *)
Lemma loadProjects_eq (w : World) :
  loadProjects w =
    (tt,
     set_document
       (λ d, with_pagination
               (paginationButtons (currentPage (this w))
                  (totalPagesOf (Z.of_nat (length (searchedAndSorted w)))))
               (with_projectsGrid
                  (map createProjectCard
                     (Array_slice
                        ((currentPage (this w) - 1) * projectsPerPage)
                        ((currentPage (this w) - 1) * projectsPerPage
                         + projectsPerPage) (searchedAndSorted w))) d))
       (exec paginatedProjectsOf w)).
Proof.
  destruct (filterProjects_frame w) as (Ht & Hd & Hl & fresh & Hs).
  pose proof (sortedProjectsOf_eq w) as Hsrt.
  unfold sortedProjectsOf, mbind, M_bind in Hsrt. cbn zeta in Hsrt.
  unfold exec at 1. rewrite paginatedProjectsOf_eq.
  unfold loadProjects, mbind, M_bind. cbn zeta.
  rewrite Hsrt. cbn [fst snd]. rewrite paginateProjects_eq. cbn [fst snd].
  unfold gets, modify, setupPagination, mbind, M_bind, gets, modify.
  cbn [fst snd].
  change (elements (set_document ?f ?w0) ?r) with (elements w0 r).
  rewrite elements_newArray.
  rewrite (elements_newArray_old (set_store _ (exec filterProjects w)))
    by (unfold set_store; cbn [store]; rewrite length_app; cbn [length]; lia).
  rewrite elements_newArray.
  cbn. rewrite Ht. f_equal. unfold set_document, set_store. cbn.
  f_equal. by rewrite <- app_assoc.
Qed.

(** [loadProjects] leaves the manager's fields, the local storage, the
    search text, the sort key and the filter buttons alone, and every array
    of the store as it was; it only adds arrays. *)
Lemma loadProjects_frame (w : World) :
  this (exec loadProjects w) = this w
  ∧ localStorage (exec loadProjects w) = localStorage w
  ∧ searchInput_value (document (exec loadProjects w))
    = searchInput_value (document w)
  ∧ sortSelect_value (document (exec loadProjects w))
    = sortSelect_value (document w)
  ∧ filterButtons (document (exec loadProjects w))
    = filterButtons (document w)
  ∧ ∃ fresh, store (exec loadProjects w) = store w ++ fresh.
Proof.
  destruct (filterProjects_frame w) as (Ht & Hd & Hl & fresh & Hs).
  unfold exec at 1 2 3 4 5 6. rewrite loadProjects_eq. cbn [snd].
  unfold exec at 1 2 3 4 5 6. rewrite paginatedProjectsOf_eq. cbn.
  rewrite Ht, Hl, Hd, Hs. repeat split. rewrite <- app_assoc. eauto.
Qed.

(** What [loadProjects] shows: the cards of the page, and the buttons for
    the page count of the sorted array. *)
Lemma loadProjects_document (w : World) :
  projectsGrid (document (exec loadProjects w))
  = map createProjectCard (returned paginatedProjectsOf w)
  ∧ pagination (document (exec loadProjects w))
    = paginationButtons (currentPage (this w))
        (totalPagesOf (Z.of_nat (length (returned sortedProjectsOf w)))).
Proof.
  unfold exec. rewrite loadProjects_eq. cbn [snd].
  by rewrite returned_paginatedProjectsOf, returned_sortedProjectsOf.
Qed.

End LoadProjects.

(** ** Pagination *)

(** [Math_ceil_div n 10] is the ceiling of [n / 10]: the least number of
    tens that covers [n]. *)
Lemma totalPagesOf_ceiling (n : Z) :
  projectsPerPage * (totalPagesOf n - 1) < n ≤ projectsPerPage * totalPagesOf n.
Proof.
  unfold totalPagesOf, Math_ceil_div, projectsPerPage.
  pose proof (Z.div_mod (- n) 10 ltac:(lia)) as Hdm.
  pose proof (Z.mod_pos_bound (- n) 10 ltac:(lia)) as Hm.
  lia.
Qed.

Lemma totalPagesOf_nonneg (n : Z) : 0 ≤ n → 0 ≤ totalPagesOf n.
Proof. pose proof (totalPagesOf_ceiling n). unfold projectsPerPage in *. lia. Qed.

(** With both indices in order and not negative, [slice] is a [take] of a
    [drop]. *)
Lemma Array_slice_nonneg {A} (start end_ : Z) (l : list A) :
  0 ≤ start ≤ end_ →
  Array_slice start end_ l
  = take (Z.to_nat (end_ - start)) (drop (Z.to_nat start) l).
Proof.
  intros Hse. unfold Array_slice.
  destruct (Z.ltb_spec start 0); [lia|].
  destruct (Z.ltb_spec end_ 0); [lia|].
  destruct (decide (start ≤ Z.of_nat (length l))) as [Hs|Hs].
  - rewrite (Z.min_l start) by lia.
    destruct (decide (end_ ≤ Z.of_nat (length l))) as [He|He].
    + by rewrite (Z.min_l end_) by lia.
    + rewrite (Z.min_r end_) by lia.
      rewrite !take_ge; [done | rewrite length_drop; lia ..].
  - rewrite (Z.min_r start), (Z.min_r end_) by lia.
    rewrite !drop_ge by lia. by rewrite !take_nil.
Qed.

(** Consecutive chunks of ten put the array back together. *)
Lemma concat_chunks {A} (n : nat) (l : list A) :
  (length l ≤ 10 * n)%nat →
  concat (map (λ i, take 10 (drop (10 * i) l)) (seq 0 n)) = l.
Proof.
  revert l. induction n as [|n IH]; intros l Hl.
  - destruct l; [done | cbn in Hl; lia].
  - cbn [seq map concat]. rewrite <- seq_shift, map_map.
    rewrite Nat.mul_0_r, drop_0.
    transitivity (take 10 l ++ drop 10 l); [|apply take_drop]. f_equal.
    etransitivity; [|apply (IH (drop 10 l)); rewrite length_drop; lia].
    f_equal. apply map_ext. intros i.
    rewrite drop_drop. do 2 f_equal. lia.
Qed.

Lemma reportedPages_paginationButtons (w : World) (page totalPages : Z) :
  0 ≤ totalPages →
  pagination (document w) = paginationButtons page totalPages →
  reportedPages w = totalPages.
Proof.
  intros Hnn Hbtn. unfold reportedPages. rewrite Hbtn.
  unfold paginationButtons.
  rewrite filter_app, filter_cons_False by (cbn; done).
  rewrite filter_nil, app_nil_l.
  rewrite filter_app, (filter_cons_False _ _ []) by (cbn; done).
  rewrite filter_nil, app_nil_r.
  assert (Hall : ∀ l : list Z,
    filter (λ b, isNumbered b = true)
      (map (λ i, mkPageButton (Numero (i + 1)) false
                   (bool_decide (page = i + 1)) (i + 1)) l)
    = map (λ i, mkPageButton (Numero (i + 1)) false
                  (bool_decide (page = i + 1)) (i + 1)) l).
  { induction l as [|i l IHl]; [done|]. cbn [map].
    rewrite filter_cons_True by done. by rewrite IHl. }
  rewrite Hall, length_map, length_seqZ. lia.
Qed.

Section Pagination.
Context `{Host}.

Lemma returned_sortedProjectsOf_atPage (n : Z) (w : World) :
  returned sortedProjectsOf (atPage n w) = returned sortedProjectsOf w.
Proof.
  rewrite !returned_sortedProjectsOf. unfold searchedAndSorted.
  do 2 f_equal. unfold returned.
  destruct (decide (currentFilter (this w) = "todos")) as [Hf|Hf].
  - by rewrite !filterProjects_todos by done.
  - rewrite !filterProjects_other by done. cbn [fst snd].
    by rewrite !elements_newArray.
Qed.

(** C4: the page count [loadProjects] reports is [Math.ceil] of the
    length of the filtered, searched and sorted array over 10, that is the
    ceiling of the quotient; and the slices [paginateProjects] returns for
    the pages 1 to that count, put end to end, are that array. *)
Theorem pagination_covers_sorted (w : World) :
  let sorted := returned sortedProjectsOf w in
  let matchingCount := Z.of_nat (length sorted) in
  let totalPages := reportedPages (exec loadProjects w) in
  totalPages = Math_ceil_div matchingCount projectsPerPage
  ∧ projectsPerPage * (totalPages - 1) < matchingCount
                                        ≤ projectsPerPage * totalPages
  ∧ concat (map (λ n, returned paginatedProjectsOf (atPage n w))
                (seqZ 1 totalPages))
    = sorted.
Proof.
  cbn zeta.
  assert (Htp : reportedPages (exec loadProjects w)
                = totalPagesOf (Z.of_nat (length (returned sortedProjectsOf w)))).
  { eapply reportedPages_paginationButtons;
      [apply totalPagesOf_nonneg; lia | apply loadProjects_document]. }
  rewrite Htp. split; [done|]. split; [apply totalPagesOf_ceiling|].
  pose proof (totalPagesOf_ceiling
                (Z.of_nat (length (returned sortedProjectsOf w)))) as Hc.
  pose proof (totalPagesOf_nonneg
                (Z.of_nat (length (returned sortedProjectsOf w)))
                ltac:(lia)) as Hnn.
  unfold projectsPerPage in Hc.
  rewrite <- (concat_chunks
                (Z.to_nat (totalPagesOf
                   (Z.of_nat (length (returned sortedProjectsOf w)))))
                (returned sortedProjectsOf w)) at 2 by lia.
  f_equal. unfold seqZ. rewrite <- list_fmap_compose.
  apply map_ext. intros i. unfold compose.
  rewrite returned_paginatedProjectsOf.
  rewrite <- returned_sortedProjectsOf, returned_sortedProjectsOf_atPage.
  cbn [atPage set_this this with_currentPage currentPage].
  unfold projectsPerPage. rewrite Array_slice_nonneg by lia.
  f_equal; [lia|]. f_equal. lia.
Qed.

End Pagination.

(** ** The collection is read-only *)

Section Intents.
Context `{Host}.

(** C6: [loadProjects] (filter, search, sort, paginate) leaves the array
    of the collection as it was: [this.projects] names the same array, and
    that array holds the same records in the same order.  The in-place
    [sort] lands on the array [searchProjects] made, and every array that
    was in the store before is there unchanged. *)
Theorem loadProjects_keeps_collection (w : World) :
  is_Some (store w !! projects (this w)) →
  projects (this (exec loadProjects w)) = projects (this w)
  ∧ elements (exec loadProjects w) (projects (this (exec loadProjects w)))
    = elements w (projects (this w))
  ∧ ∃ fresh, store (exec loadProjects w) = store w ++ fresh.
Proof.
  intros Hsome.
  destruct (loadProjects_frame w) as (Ht & _ & _ & _ & _ & fresh & Hs).
  split; [by rewrite Ht|]. split; [|by exists fresh].
  rewrite Ht. unfold elements. rewrite Hs.
  by rewrite lookup_app_l by by apply lookup_lt_is_Some_1.
Qed.

(** ** Changing the filter *)

(** C7: [handleFilterChange filter] makes [filter] the current filter,
    writes it under [currentFilter] in the local storage, sets the page to
    1 and then runs [loadProjects]; the search text, the sort key and the
    collection are as before. *)
Theorem handleFilterChange_effect (w : World) (filter_ : string) :
  let w' := exec (handleFilterChange filter_) w in
  currentFilter (this w') = filter_
  ∧ localStorage w' = <["currentFilter" := filter_]> (localStorage w)
  ∧ localStorage w' !! "currentFilter" = Some filter_
  ∧ currentPage (this w') = 1
  ∧ searchInput_value (document w') = searchInput_value (document w)
  ∧ sortSelect_value (document w') = sortSelect_value (document w)
  ∧ projects (this w') = projects (this w)
  ∧ w' = exec loadProjects
           (atPage 1
              (exec setActiveFilter
                 (set_localStorage (<["currentFilter" := filter_]>)
                    (set_this (with_currentFilter filter_) w)))).
Proof.
  cbn zeta.
  assert (Hrun : exec (handleFilterChange filter_) w
                 = exec loadProjects
                     (atPage 1
                        (exec setActiveFilter
                           (set_localStorage (<["currentFilter" := filter_]>)
                              (set_this (with_currentFilter filter_) w)))))
    by reflexivity.
  rewrite Hrun.
  destruct (loadProjects_frame
              (atPage 1
                 (exec setActiveFilter
                    (set_localStorage (<["currentFilter" := filter_]>)
                       (set_this (with_currentFilter filter_) w)))))
    as (Ht & Hl & Hsearch & Hsort & _ & _).
  rewrite Ht, Hl, Hsearch, Hsort. cbn.
  repeat split. apply lookup_insert_eq.
Qed.

(** ** Typing in the search field *)

(** C8: the [input] listener of the search field calls [loadProjects] and
    nothing else, so the current page is the one it was, whatever the text
    and however few records it leaves; the filter and the sort key are
    unchanged as well. *)
Theorem onSearchInput_keeps_page (w : World) (text : string) :
  let w' := exec (onSearchInput text) w in
  currentPage (this w') = currentPage (this w)
  ∧ searchInput_value (document w') = text
  ∧ currentFilter (this w') = currentFilter (this w)
  ∧ sortSelect_value (document w') = sortSelect_value (document w)
  ∧ w' = exec loadProjects (withSearch text w).
Proof.
  cbn zeta.
  assert (Hrun : exec (onSearchInput text) w
                 = exec loadProjects (withSearch text w)) by reflexivity.
  rewrite Hrun.
  destruct (loadProjects_frame (withSearch text w))
    as (Ht & _ & Hsearch & Hsort & _ & _).
  by rewrite Ht, Hsearch, Hsort.
Qed.

(** ** Choosing a page *)

(** C1, as the code has it: the listener of a pagination button sets the
    current page to any number it is given, inside the range of pages or
    not, and then runs [loadProjects]; it does nothing only when the number
    is [NaN]. *)
Theorem setPage_sets_any_number (w : World) (n : Z) :
  currentPage (this (exec (setPage (Num n)) w)) = n
  ∧ exec (setPage (Num n)) w = exec loadProjects (atPage n w)
  ∧ exec (setPage NaN) w = w.
Proof.
  assert (Hrun : exec (setPage (Num n)) w = exec loadProjects (atPage n w))
    by reflexivity.
  split; [|by split].
  rewrite Hrun. by destruct (loadProjects_frame (atPage n w)) as [-> _].
Qed.

End Intents.

Lemma loadProjects_keeps_collection_witness :
  elements (exec (loadProjects (H := sampleHost))
                 (sampleWorld datedProjects "" "fechaActualizacion")) 1%nat
  = datedProjects.
Proof.
  apply (loadProjects_keeps_collection (H := sampleHost)
           (sampleWorld datedProjects "" "fechaActualizacion")).
  vm_compute. eexists. reflexivity.
Defined.

(** The page shown in that world is sorted, most recent first, while the
    collection keeps its order. *)
Example loadProjects_sorts_a_copy :
  let w := exec (loadProjects (H := sampleHost))
                (sampleWorld datedProjects "" "fechaActualizacion") in
  map card_data_id (projectsGrid (document w)) = [4; 2; 1; 3]
  ∧ map id (elements w (projects (this w))) = [1; 2; 3; 4].
Proof. split; reflexivity. Qed.

(** [sort] itself is in place: called on the array of the collection it
    would reorder the collection. *)
Example sortProjects_is_in_place :
  let w := sampleWorld datedProjects "" "fechaActualizacion" in
  map id (elements (exec (sortProjects (H := sampleHost) (projects (this w)))
                         w)
                   (projects (this w)))
  = [4; 2; 1; 3].
Proof. reflexivity. Qed.

(** C1 fails as stated.  With an empty collection [loadProjects] reports 0
    pages, so 2 is no valid page; the [Siguiente] button it writes is
    enabled and carries page 2; the listener sets the current page to 2. *)
Lemma setPage_out_of_range_sets_page :
  let w := exec (loadProjects (H := sampleHost))
                (sampleWorld [] "" "fechaActualizacion") in
  reportedPages w = 0
  ∧ ¬ (1 ≤ 2 ≤ reportedPages w)
  ∧ currentPage (this w) = 1
  ∧ mkPageButton Siguiente false false 2 ∈ pagination (document w)
  ∧ currentPage
      (this (exec (onPageClick (H := sampleHost)
                     (mkPageButton Siguiente false false 2)) w)) = 2
  ∧ currentPage (this (exec (setPage (H := sampleHost) (Num 2)) w)) = 2
  ∧ currentPage (this (exec (setPage (H := sampleHost) (Num 2)) w))
    ≠ currentPage (this w).
Proof.
  cbn zeta. split; [reflexivity|]. split; [vm_compute; intros [_ Hle]; by apply Hle|].
  split; [reflexivity|]. split; [|by vm_compute].
  vm_compute. apply list_elem_of_In. cbn. tauto.
Qed.

(** After the search leaves one page, the current page is still 2 and the
    grid is empty. *)
Example onSearchInput_page_beyond_total :
  let w := exec (setPage (H := sampleHost) (Num 2))
                (sampleWorld bulkProjects "" "nombre") in
  let w' := exec (onSearchInput (H := sampleHost) "blog") w in
  reportedPages w = 2 ∧ currentPage (this w) = 2
  ∧ reportedPages w' = 1 ∧ currentPage (this w') = 2
  ∧ projectsGrid (document w') = [].
Proof. cbn zeta. repeat split; reflexivity. Qed.

Example handleFilterChange_resets_page :
  let w := exec (setPage (H := sampleHost) (Num 2))
                (sampleWorld bulkProjects "" "nombre") in
  let w' := exec (handleFilterChange (H := sampleHost) "completados") w in
  currentPage (this w) = 2 ∧ currentPage (this w') = 1
  ∧ map card_data_id (projectsGrid (document w')) = [12]
  ∧ map fb_active (filterButtons (document w')) = [false; false; true; false].
Proof. cbn zeta. repeat split; reflexivity. Qed.

(** ** The README collection *)

Example readme_sorted_by_name :
  let w := exec (loadProjects (H := sampleHost))
                (sampleWorld sampleProjects "" "nombre") in
  map card_title (projectsGrid (document w))
  = ["App de Gestion"; "Blog Personal"; "E-commerce Platform"]
  ∧ reportedPages w = 1.
Proof. split; reflexivity. Qed.

Example readme_filtered_en_progreso :
  let w := exec (handleFilterChange (H := sampleHost) "en-progreso")
                (sampleWorld sampleProjects "" "nombre") in
  map card_title (projectsGrid (document w)) = ["E-commerce Platform"]
  ∧ reportedPages w = 1
  ∧ localStorage w !! "currentFilter" = Some "en-progreso".
Proof. repeat split; reflexivity. Qed.

Example readme_card_of_unknown_status :
  createProjectCard (H := sampleHost)
    (mkProject 9 "Tablero" "archivados" "2025-01-05" ["Go"] "")
  = mkCard 9 "Tablero" JUndefined JUndefined "2025-01-05" ["Go"].
Proof. reflexivity. Qed.

(** * More of the manager *)

(** ** Status label and style agree *)

(** X1: The two tables have the same keys, so [getStatusClass] and
    [getStatusText] are defined together: both are strings exactly for the
    three known tokens, and one is [undefined] exactly when the other
    is. *)
Theorem getStatus_class_and_text_agree (p : Project) :
  (knownStatus (estado p)
   ↔ ∃ c t, getStatusClass p = JString c ∧ getStatusText p = JString t)
  ∧ (getStatusClass p = JUndefined ↔ getStatusText p = JUndefined)
  ∧ (getStatusClass p = JUndefined
     ↔ ¬ knownStatus (estado p) ∧ estado p ∉ Object_prototype_names).
Proof.
  destruct (decide (knownStatus (estado p))) as [Hk|Hk].
  - assert (Hboth : ∃ c t, getStatusClass p = JString c
                           ∧ getStatusText p = JString t).
    { unfold getStatusClass, getStatusText.
      destruct Hk as [-> | [-> | ->]]; eexists _, _; split; reflexivity. }
    destruct Hboth as (c & t & Hc & Ht).
    split; [split; eauto|]. rewrite Hc, Ht. split; [done|].
    split; [done | tauto].
  - unfold getStatusClass, getStatusText, getProperty.
    rewrite statusClasses_lookup_None, statusTexts_lookup_None by done.
    destruct (decide (estado p ∈ Object_prototype_names)) as [Hin|Hin].
    + split; [split; [done | by intros (c & t & ? & ?)]|].
      split; [done|]. split; [done | tauto].
    + split; [split; [done | by intros (c & t & ? & ?)]|]. done.
Qed.

(** ** Filter: nothing that matches is left out *)

Lemma returned_filterProjects (w : World) :
  returned filterProjects w
  = if decide (currentFilter (this w) = "todos") then collection w
    else filter (λ p, estado p = currentFilter (this w)) (collection w).
Proof.
  unfold returned, collection. case_decide as Hf.
  - by rewrite filterProjects_todos.
  - rewrite filterProjects_other by done. cbn [fst snd].
    apply elements_newArray.
Qed.

(** X2: With a filter other than ['todos'], [filterProjects] returns a new
    array that holds, in the order of the collection, exactly the records
    of that status. *)
Theorem filterProjects_exact (w : World) :
  currentFilter (this w) ≠ "todos" →
  (∀ p, p ∈ returned filterProjects w
        ↔ p ∈ collection w ∧ estado p = currentFilter (this w))
  ∧ sublist (returned filterProjects w) (collection w)
  ∧ (filterProjects w).1 = length (store w)
  ∧ store (exec filterProjects w) = store w ++ [returned filterProjects w].
Proof.
  intros Hf. rewrite returned_filterProjects, decide_False by done.
  split; [|split; [|split]].
  - intros p. rewrite list_elem_of_filter. tauto.
  - apply sublist_filter.
  - by rewrite filterProjects_other.
  - unfold exec. by rewrite filterProjects_other.
Qed.

Lemma filterProjects_exact_witness :
  let w := set_this (with_currentFilter "en-progreso")
                    (sampleWorld datedProjects "" "nombre") in
  (∀ p, p ∈ returned filterProjects w
        ↔ p ∈ collection w ∧ estado p = "en-progreso")
  ∧ sublist (returned filterProjects w) (collection w)
  ∧ (filterProjects w).1 = 2%nat
  ∧ store (exec filterProjects w) = store w ++ [returned filterProjects w].
Proof.
  apply (filterProjects_exact
           (set_this (with_currentFilter "en-progreso")
                     (sampleWorld datedProjects "" "nombre"))).
  vm_compute. discriminate.
Defined.

(** ** Sort: in place, a permutation, ascending by name and by status *)

Section ArraySortConsistent.
Context {A : Type} (comparefn : Comparator A) (ok : A → Prop).

(** The comparator never answers "greater" both ways on the elements that
    satisfy [ok]. *)
Hypothesis comparefn_antisym :
  ∀ x y, ok x → ok y →
         0 < SortCompare comparefn x y → SortCompare comparefn y x ≤ 0.

Lemma sortInsert_notGreater (x : A) (l : list A) :
  ok x → Forall ok l → Sorted (notGreater comparefn) l →
  Sorted (notGreater comparefn) (sortInsert comparefn x l).
Proof.
  intros Hx Hl Hs. induction l as [|y l IH]; cbn.
  - repeat constructor.
  - apply Forall_cons in Hl as [Hy Hl].
    apply Sorted_inv in Hs as [Hs Hhd].
    destruct (Z.ltb_spec 0 (SortCompare comparefn x y)) as [Hgt|Hle].
    + constructor; [by apply IH|].
      destruct l as [|z l]; cbn.
      * constructor. by apply comparefn_antisym.
      * apply HdRel_inv in Hhd.
        destruct (0 <? SortCompare comparefn x z); constructor;
          [done | by apply comparefn_antisym].
    + constructor; [by constructor|]. by constructor.
Qed.

Lemma Array_sort_notGreater (l : list A) :
  Forall ok l → Sorted (notGreater comparefn) (Array_sort comparefn l).
Proof.
  induction l as [|x l IH]; cbn; intros Hl; [constructor|].
  apply Forall_cons in Hl as [Hx Hl].
  apply sortInsert_notGreater; auto using Array_sort_ok.
Qed.

Lemma Sorted_lookup_succ (R : A → A → Prop) (l : list A) (i : nat) (a b : A) :
  Sorted R l → l !! i = Some a → l !! S i = Some b → R a b.
Proof.
  intros Hs. revert i. induction Hs as [|x l Hs IH Hhd]; intros i Ha Hb.
  - done.
  - destruct i as [|i]; cbn in *.
    + injection Ha as ->. destruct Hhd as [|y l Hxy]; [done|].
      cbn in Hb. by injection Hb as ->.
    + by eapply IH.
Qed.

(** Elements of one class never compare greater than each other, so
    insertion never moves one past another. *)
Context {K : Type} `{EqDecision K} (cls : A → K).
Hypothesis comparefn_class :
  ∀ x y, ok x → ok y → cls x = cls y → SortCompare comparefn x y ≤ 0.

Lemma sortInsert_class_stable (k : K) (x : A) (l : list A) :
  ok x → Forall ok l →
  filter (λ a, cls a = k) (sortInsert comparefn x l)
  = filter (λ a, cls a = k) (x :: l).
Proof.
  intros Hx Hl. induction l as [|y l IH]; cbn [sortInsert]; [done|].
  apply Forall_cons in Hl as [Hy Hl].
  destruct (Z.ltb_spec 0 (SortCompare comparefn x y)) as [Hgt|Hle]; [|done].
  assert (cls x ≠ cls y) as Hne.
  { intros Heq. specialize (comparefn_class x y Hx Hy Heq). lia. }
  rewrite (filter_cons _ y), IH by done.
  rewrite (filter_cons _ x (y :: l)), (filter_cons _ y l), (filter_cons _ x l).
  repeat case_decide; try done; congruence.
Qed.

Lemma Array_sort_class_stable (k : K) (l : list A) :
  Forall ok l →
  filter (λ a, cls a = k) (Array_sort comparefn l)
  = filter (λ a, cls a = k) l.
Proof.
  induction l as [|x l IH]; cbn [Array_sort]; intros Hl; [done|].
  apply Forall_cons in Hl as [Hx Hl].
  rewrite sortInsert_class_stable by auto using Array_sort_ok.
  by rewrite !filter_cons, IH.
Qed.

End ArraySortConsistent.

Section SortMore.
Context `{Host}.

(** X3: [sortProjects] returns the array it was given, sorted in place: the
    array holds the same records as before, whatever the sort key and the
    host, and no other array of the store changes. *)
Theorem sortProjects_in_place (w : World) (arr : Ref) :
  (sortProjects arr w).1 = arr
  ∧ returned (sortProjects arr) w ≡ₚ elements w arr
  ∧ length (returned (sortProjects arr) w) = length (elements w arr)
  ∧ length (store (exec (sortProjects arr) w)) = length (store w)
  ∧ (∀ r, r ≠ arr → elements (exec (sortProjects arr) w) r = elements w r).
Proof.
  rewrite returned_sortProjects. split; [done|].
  split; [apply Array_sort_perm|]. split; [apply Array_sort_length|].
  unfold exec. rewrite sortProjects_eq. cbn [snd]. split.
  - cbn. apply length_insert.
  - intros r Hr. unfold elements. cbn.
    by rewrite list_lookup_insert_ne.
Qed.

(** The comparator for a sort by a text field. *)
Lemma sort_by_field (field : Project → string) (key : string)
    (l : list Project) :
  (∀ a b, compareProjects key a b
          = Some (Num (localeCompare (field a) (field b)))) →
  Forall (λ a, Forall (λ b,
            (0 < localeCompare (field a) (field b)
             → localeCompare (field b) (field a) ≤ 0)
            ∧ (field a = field b → localeCompare (field a) (field b) ≤ 0))
          l) l →
  let sorted := Array_sort (compareProjects key) l in
  (∀ i a b, sorted !! i = Some a → sorted !! S i = Some b →
            localeCompare (field a) (field b) ≤ 0)
  ∧ (∀ s, filter (λ p, field p = s) sorted = filter (λ p, field p = s) l).
Proof.
  intros Hcmp Hhost sorted. subst sorted.
  assert (Hsc : ∀ a b, SortCompare (compareProjects key) a b
                       = localeCompare (field a) (field b)).
  { intros a b. unfold SortCompare. by rewrite Hcmp. }
  assert (Hpair : ∀ a b, a ∈ l → b ∈ l →
            (0 < localeCompare (field a) (field b)
             → localeCompare (field b) (field a) ≤ 0)
            ∧ (field a = field b → localeCompare (field a) (field b) ≤ 0)).
  { intros a b Ha Hb. rewrite Forall_forall in Hhost.
    specialize (Hhost a Ha). rewrite Forall_forall in Hhost. by apply Hhost. }
  assert (Hall : Forall (λ p, p ∈ l) l) by by apply Forall_forall.
  split.
  - intros i a b Ha Hb. rewrite <- Hsc.
    eapply (Sorted_lookup_succ (notGreater (compareProjects key)));
      [|done..].
    apply (Array_sort_notGreater _ (λ p, p ∈ l)); [|done].
    intros x y Hx Hy. rewrite !Hsc. by apply Hpair.
  - intros s. apply (Array_sort_class_stable _ (λ p, p ∈ l) field); [|done].
    intros x y Hx Hy. rewrite Hsc. by apply Hpair.
Qed.

(** X4: With the sort key [nombre], and a [localeCompare] that on the names of
    the array never says "after" both ways and never puts a name after
    itself, [sortProjects] leaves the records in ascending order of name,
    every adjacent pair in order, and records of the same name in the
    order they had. *)
Theorem sortProjects_nombre_ascending (w : World) (arr : Ref) :
  sortSelect_value (document w) = "nombre" →
  Forall (λ a, Forall (λ b,
            (0 < localeCompare (nombre a) (nombre b)
             → localeCompare (nombre b) (nombre a) ≤ 0)
            ∧ (nombre a = nombre b
               → localeCompare (nombre a) (nombre b) ≤ 0))
          (elements w arr)) (elements w arr) →
  let sorted := returned (sortProjects arr) w in
  (∀ i a b, sorted !! i = Some a → sorted !! S i = Some b →
            localeCompare (nombre a) (nombre b) ≤ 0)
  ∧ (∀ s, filter (λ p, nombre p = s) sorted
          = filter (λ p, nombre p = s) (elements w arr)).
Proof.
  intros Hkey Hhost sorted. subst sorted.
  rewrite returned_sortProjects, Hkey.
  by apply sort_by_field.
Qed.

(** X5: The same for the sort key [estado], which compares the raw status
    tokens. *)
Theorem sortProjects_estado_ascending (w : World) (arr : Ref) :
  sortSelect_value (document w) = "estado" →
  Forall (λ a, Forall (λ b,
            (0 < localeCompare (estado a) (estado b)
             → localeCompare (estado b) (estado a) ≤ 0)
            ∧ (estado a = estado b
               → localeCompare (estado a) (estado b) ≤ 0))
          (elements w arr)) (elements w arr) →
  let sorted := returned (sortProjects arr) w in
  (∀ i a b, sorted !! i = Some a → sorted !! S i = Some b →
            localeCompare (estado a) (estado b) ≤ 0)
  ∧ (∀ s, filter (λ p, estado p = s) sorted
          = filter (λ p, estado p = s) (elements w arr)).
Proof.
  intros Hkey Hhost sorted. subst sorted.
  rewrite returned_sortProjects, Hkey.
  by apply sort_by_field.
Qed.

End SortMore.

Lemma sortProjects_in_place_witness :
  elements (exec (sortProjects (H := sampleHost) 1%nat)
                 (sampleWorld datedProjects "" "nombre")) 0%nat
  = elements (sampleWorld datedProjects "" "nombre") 0%nat.
Proof.
  apply (sortProjects_in_place (H := sampleHost)
           (sampleWorld datedProjects "" "nombre") 1%nat).
  lia.
Defined.

Lemma sortProjects_nombre_ascending_witness :
  let w := sampleWorld datedProjects "" "nombre" in
  let sorted := returned (sortProjects (H := sampleHost) 1%nat) w in
  (∀ i a b, sorted !! i = Some a → sorted !! S i = Some b →
            codeUnitCompare (nombre a) (nombre b) ≤ 0)
  ∧ (∀ s, filter (λ p, nombre p = s) sorted
          = filter (λ p, nombre p = s) (elements w 1%nat)).
Proof.
  apply (sortProjects_nombre_ascending (H := sampleHost)
           (sampleWorld datedProjects "" "nombre") 1%nat).
  - reflexivity.
  - apply (bool_decide_unpack _). vm_compute. reflexivity.
Defined.

Lemma sortProjects_estado_ascending_witness :
  let w := sampleWorld datedProjects "" "estado" in
  let sorted := returned (sortProjects (H := sampleHost) 1%nat) w in
  (∀ i a b, sorted !! i = Some a → sorted !! S i = Some b →
            codeUnitCompare (estado a) (estado b) ≤ 0)
  ∧ (∀ s, filter (λ p, estado p = s) sorted
          = filter (λ p, estado p = s) (elements w 1%nat)).
Proof.
  apply (sortProjects_estado_ascending (H := sampleHost)
           (sampleWorld datedProjects "" "estado") 1%nat).
  - reflexivity.
  - apply (bool_decide_unpack _). vm_compute. reflexivity.
Defined.

Example sortProjects_by_name_and_status :
  map id (returned (sortProjects (H := sampleHost) 1%nat)
                   (sampleWorld datedProjects "" "nombre"))
  = [4; 2; 3; 1]
  ∧ map id (returned (sortProjects (H := sampleHost) 1%nat)
                     (sampleWorld datedProjects "" "estado"))
    = [2; 3; 4; 1].
Proof. split; reflexivity. Qed.

(** ** Pages *)

Lemma Array_slice_window_length {A} (start : Z) (l : list A) :
  (length (Array_slice start (start + 10) l) ≤ 10)%nat.
Proof.
  unfold Array_slice. rewrite length_take, length_drop.
  destruct (Z.ltb_spec start 0), (Z.ltb_spec (start + 10) 0); lia.
Qed.

Lemma Array_slice_sublist {A} (start end_ : Z) (l : list A) :
  sublist (Array_slice start end_ l) l.
Proof.
  unfold Array_slice. etransitivity; [apply sublist_take | apply sublist_drop].
Qed.

Lemma paginateProjects_take_drop (w : World) (arr : Ref) :
  1 ≤ currentPage (this w) →
  returned (paginateProjects arr) w
  = take 10 (drop (Z.to_nat (10 * (currentPage (this w) - 1)))
                  (elements w arr)).
Proof.
  intros Hpage. rewrite returned_paginateProjects. unfold projectsPerPage.
  rewrite Array_slice_nonneg by lia. f_equal; [lia|]. f_equal. lia.
Qed.

(** X6: Whatever the current page, zero and negative numbers included, the
    array [paginateProjects] returns has at most 10 records, all of them
    records of the array it was given, in their order. *)
Theorem paginateProjects_at_most_ten (w : World) (arr : Ref) :
  (length (returned (paginateProjects arr) w) ≤ 10)%nat
  ∧ sublist (returned (paginateProjects arr) w) (elements w arr).
Proof.
  rewrite returned_paginateProjects. unfold projectsPerPage. split.
  - apply Array_slice_window_length.
  - apply Array_slice_sublist.
Qed.

(** X7: On page [n], from 1 on, the record at position [i] of the slice is the
    record at position [10 * (n - 1) + i] of the array, for [i] below 10,
    and the slice ends where the array does. *)
Theorem paginateProjects_index (w : World) (arr : Ref) (i : nat) :
  1 ≤ currentPage (this w) →
  (i < 10)%nat →
  returned (paginateProjects arr) w !! i
  = elements w arr !! (Z.to_nat (10 * (currentPage (this w) - 1)) + i)%nat.
Proof.
  intros Hpage Hi. rewrite paginateProjects_take_drop by done.
  by rewrite lookup_take_lt, lookup_drop by done.
Qed.

Lemma paginateProjects_index_witness :
  returned (paginateProjects 1%nat)
           (atPage 2 (sampleWorld bulkProjects "" "nombre")) !! 1%nat
  = bulkProjects !! 11%nat.
Proof.
  apply (paginateProjects_index
           (atPage 2 (sampleWorld bulkProjects "" "nombre")) 1%nat 1%nat).
  - vm_compute. discriminate.
  - lia.
Defined.

Lemma elem_of_paginationButtons (page totalPages : Z) (b : PageButton) :
  b ∈ paginationButtons page totalPages
  ↔ b = mkPageButton Anterior (bool_decide (page = 1)) false (page - 1)
    ∨ (∃ n, 1 ≤ n ≤ totalPages
            ∧ b = mkPageButton (Numero n) false (bool_decide (page = n)) n)
    ∨ b = mkPageButton Siguiente (bool_decide (page = totalPages)) false
                       (page + 1).
Proof.
  unfold paginationButtons.
  rewrite !elem_of_app, !list_elem_of_singleton.
  rewrite list_elem_of_In, in_map_iff.
  setoid_rewrite <- list_elem_of_In. setoid_rewrite elem_of_seqZ.
  split.
  - intros [?|[(i & <- & Hi)|?]]; [by left | | by right; right].
    right; left. exists (i + 1). split; [lia | done].
  - intros [?|[(n & Hn & ->)|?]]; [by left | | by right; right].
    right; left. exists (n - 1). split; [|lia].
    by replace (n - 1 + 1) with n by lia.
Qed.

Section Pages.
Context `{Host}.

Lemma document_loadProjects (w : World) :
  document (exec loadProjects w)
  = with_pagination
      (paginationButtons (currentPage (this w))
         (totalPagesOf (Z.of_nat (length (searchedAndSorted w)))))
      (with_projectsGrid
         (map createProjectCard
            (Array_slice ((currentPage (this w) - 1) * projectsPerPage)
               ((currentPage (this w) - 1) * projectsPerPage
                + projectsPerPage) (searchedAndSorted w)))
         (document w)).
Proof.
  destruct (filterProjects_frame w) as (_ & Hd & _ & _).
  unfold exec at 1. rewrite loadProjects_eq. cbn [snd].
  unfold exec at 1. rewrite paginatedProjectsOf_eq. cbn [snd].
  unfold set_document, set_store. cbn [document]. by rewrite Hd.
Qed.

Lemma reportedPages_loadProjects (w : World) :
  reportedPages (exec loadProjects w)
  = totalPagesOf (Z.of_nat (length (searchedAndSorted w))).
Proof.
  eapply reportedPages_paginationButtons;
    [apply totalPagesOf_nonneg; lia|].
  by rewrite document_loadProjects.
Qed.

(** X8: On a page from 1 on, [loadProjects] shows no card exactly when the
    page lies beyond the page count it reports; it never fails. *)
Theorem loadProjects_grid_empty_iff (w : World) :
  1 ≤ currentPage (this w) →
  projectsGrid (document (exec loadProjects w)) = []
  ↔ reportedPages (exec loadProjects w) < currentPage (this w).
Proof.
  intros Hpage. rewrite reportedPages_loadProjects, document_loadProjects.
  cbn [projectsGrid with_pagination with_projectsGrid].
  pose proof (totalPagesOf_ceiling
                (Z.of_nat (length (searchedAndSorted w)))) as Hc.
  unfold projectsPerPage in *. rewrite Array_slice_nonneg by lia.
  split.
  - intros Hnil. apply fmap_nil_inv in Hnil.
    apply take_nil_inv in Hnil as [Hnil|Hnil]; [lia|].
    apply drop_nil_inv in Hnil. lia.
  - intros Hlt. rewrite drop_ge by lia. by rewrite take_nil.
Qed.

(** X9: The buttons [loadProjects] writes: [Anterior], one numbered button for
    each page from 1 to the page count, [Siguiente], in this order.  Only
    the numbered button of the current page is active; [Anterior] is
    disabled on page 1 only and asks for the page before, [Siguiente] is
    disabled on the last page only and asks for the page after. *)
Theorem loadProjects_pagination_buttons (w : World) :
  let buttons := pagination (document (exec loadProjects w)) in
  let totalPages := reportedPages (exec loadProjects w) in
  let page := currentPage (this w) in
  map pb_label buttons
  = [Anterior] ++ map Numero (seqZ 1 totalPages) ++ [Siguiente]
  ∧ (∀ b, b ∈ buttons →
       match pb_label b with
       | Anterior =>
           pb_data_page b = page - 1 ∧ pb_active b = false
           ∧ (pb_disabled b = true ↔ page = 1)
       | Numero n =>
           pb_data_page b = n ∧ 1 ≤ n ≤ totalPages ∧ pb_disabled b = false
           ∧ (pb_active b = true ↔ page = n)
       | Siguiente =>
           pb_data_page b = page + 1 ∧ pb_active b = false
           ∧ (pb_disabled b = true ↔ page = totalPages)
       end).
Proof.
  cbn zeta. rewrite reportedPages_loadProjects, document_loadProjects.
  cbn [pagination with_pagination]. split.
  - unfold paginationButtons. rewrite !map_app, map_map. cbn [map pb_label].
    do 2 f_equal. unfold seqZ. generalize (seq 0 (Z.to_nat
      (totalPagesOf (Z.of_nat (length (searchedAndSorted w)))))).
    intros l. induction l as [|i l IH]; [done|].
    cbn. rewrite <- IH. do 2 f_equal. lia.
  - intros b [-> | [(n & Hn & ->) | ->]]%elem_of_paginationButtons;
      cbn [pb_label pb_data_page pb_active pb_disabled];
      rewrite ?bool_decide_eq_true; done.
Qed.

End Pages.

Lemma loadProjects_grid_empty_iff_witness :
  projectsGrid
    (document (exec (loadProjects (H := sampleHost))
                    (atPage 3 (sampleWorld bulkProjects "" "nombre"))))
  = []
  ↔ reportedPages (exec (loadProjects (H := sampleHost))
                        (atPage 3 (sampleWorld bulkProjects "" "nombre")))
    < 3.
Proof.
  apply (loadProjects_grid_empty_iff (H := sampleHost)
           (atPage 3 (sampleWorld bulkProjects "" "nombre"))).
  vm_compute. discriminate.
Defined.

Lemma loadProjects_pagination_buttons_witness :
  map pb_label
      (pagination
         (document (exec (loadProjects (H := sampleHost))
                         (atPage 2 (sampleWorld bulkProjects "" "nombre")))))
  = [Anterior; Numero 1; Numero 2; Siguiente].
Proof.
  apply (loadProjects_pagination_buttons (H := sampleHost)
           (atPage 2 (sampleWorld bulkProjects "" "nombre"))).
Defined.

(** ** The whole chain *)

Section Chain.
Context `{Host}.

Lemma searched_filtered_matches (w : World) :
  filter (λ p, includes (toLowerCase (nombre p))
                 (toLowerCase (searchInput_value (document w))) = true)
         (returned filterProjects w)
  = filter (matchesQuery w) (collection w).
Proof.
  rewrite returned_filterProjects. unfold matchesQuery. case_decide as Hf.
  - apply list_filter_iff. intros p. tauto.
  - rewrite list_filter_filter. apply list_filter_iff. intros p. tauto.
Qed.

Lemma searchedAndSorted_matches (w : World) :
  searchedAndSorted w
  = Array_sort (compareProjects (sortSelect_value (document w)))
               (filter (matchesQuery w) (collection w)).
Proof. unfold searchedAndSorted. by rewrite searched_filtered_matches. Qed.

Lemma searchedAndSorted_ext (w1 w2 : World) :
  currentFilter (this w1) = currentFilter (this w2) →
  collection w1 = collection w2 →
  searchInput_value (document w1) = searchInput_value (document w2) →
  sortSelect_value (document w1) = sortSelect_value (document w2) →
  searchedAndSorted w1 = searchedAndSorted w2.
Proof.
  intros Hf Hc Hsearch Hsort. rewrite !searchedAndSorted_matches.
  rewrite Hsort, Hc. f_equal. apply list_filter_iff. intros p.
  unfold matchesQuery. by rewrite Hf, Hsearch.
Qed.

Lemma collection_loadProjects (w : World) :
  is_Some (store w !! projects (this w)) →
  collection (exec loadProjects w) = collection w.
Proof.
  intros Hsome.
  destruct (loadProjects_frame w) as (Ht & _ & _ & _ & _ & fresh & Hs).
  unfold collection, elements. rewrite Ht, Hs.
  by rewrite lookup_app_l by by apply lookup_lt_is_Some_1.
Qed.

Lemma collection_valid_loadProjects (w : World) :
  is_Some (store w !! projects (this w)) →
  is_Some (store (exec loadProjects w) !! projects (this (exec loadProjects w))).
Proof.
  intros Hsome.
  destruct (loadProjects_frame w) as (Ht & _ & _ & _ & _ & fresh & Hs).
  rewrite Ht, Hs. apply lookup_lt_is_Some_2. rewrite length_app.
  apply lookup_lt_is_Some_1 in Hsome. lia.
Qed.

Lemma elem_of_searchedAndSorted (w : World) (p : Project) :
  p ∈ searchedAndSorted w
  ↔ p ∈ collection w
    ∧ (currentFilter (this w) = "todos"
       ∨ estado p = currentFilter (this w))
    ∧ includes (toLowerCase (nombre p))
               (toLowerCase (searchInput_value (document w))) = true.
Proof.
  rewrite searchedAndSorted_matches, Array_sort_perm, list_elem_of_filter.
  unfold matchesQuery. tauto.
Qed.

(** X10: What the chain leaves for the pages is a rearrangement of exactly the
    records of the collection that pass the filter and the search test
    (the name in lower case includes the text in lower case): no record
    that matches is lost, none is shown twice, none is made up. *)
Theorem sortedProjectsOf_matching_records (w : World) :
  returned sortedProjectsOf w ≡ₚ filter (matchesQuery w) (collection w)
  ∧ (∀ p, p ∈ returned sortedProjectsOf w
          ↔ p ∈ collection w
            ∧ (currentFilter (this w) = "todos"
               ∨ estado p = currentFilter (this w))
            ∧ includes (toLowerCase (nombre p))
                       (toLowerCase (searchInput_value (document w)))
              = true).
Proof.
  rewrite returned_sortedProjectsOf. split.
  - rewrite searchedAndSorted_matches. apply Array_sort_perm.
  - apply elem_of_searchedAndSorted.
Qed.

(** X11: Every card [loadProjects] shows is the card of a record of the
    collection that passes the filter and the search test, and no more
    than 10 cards are shown. *)
Theorem loadProjects_cards_sound (w : World) :
  (length (projectsGrid (document (exec loadProjects w))) ≤ 10)%nat
  ∧ (∀ card, card ∈ projectsGrid (document (exec loadProjects w)) →
       ∃ p, card = createProjectCard p
            ∧ p ∈ collection w
            ∧ (currentFilter (this w) = "todos"
               ∨ estado p = currentFilter (this w))
            ∧ includes (toLowerCase (nombre p))
                       (toLowerCase (searchInput_value (document w)))
              = true).
Proof.
  rewrite document_loadProjects.
  cbn [projectsGrid with_pagination with_projectsGrid].
  unfold projectsPerPage. split.
  - rewrite length_map. apply Array_slice_window_length.
  - intros card Hcard. apply list_elem_of_In, in_map_iff in Hcard
      as (p & <- & Hp). apply list_elem_of_In in Hp.
    exists p. split; [done|].
    eapply elem_of_sublist in Hp; [|apply Array_slice_sublist].
    by apply elem_of_searchedAndSorted in Hp.
Qed.

End Chain.

(** ** Invariants of the intents *)

Section Invariants.
Context `{Host}.

Lemma setPage_Num_eq (w : World) (n : Z) :
  exec (setPage (Num n)) w = exec loadProjects (atPage n w).
Proof. reflexivity. Qed.

Lemma atPage_frame (n : Z) (w : World) :
  currentFilter (this (atPage n w)) = currentFilter (this w)
  ∧ collection (atPage n w) = collection w
  ∧ document (atPage n w) = document w
  ∧ currentPage (this (atPage n w)) = n.
Proof. done. Qed.

Lemma onSortChange_eq (w : World) (key : string) :
  exec (onSortChange key) w = exec loadProjects (withSort key w).
Proof. reflexivity. Qed.

Lemma onPageClick_eq (w : World) (b : PageButton) :
  exec (onPageClick b) w
  = if pb_disabled b then w else exec (setPage (Num (pb_data_page b))) w.
Proof. unfold onPageClick. by destruct (pb_disabled b). Qed.

(** X12: [loadProjects] twice shows what [loadProjects] once shows: the second
    run reads the same collection and query state and writes the same cards
    and buttons. *)
Theorem loadProjects_idempotent (w : World) :
  is_Some (store w !! projects (this w)) →
  document (exec loadProjects (exec loadProjects w))
  = document (exec loadProjects w)
  ∧ this (exec loadProjects (exec loadProjects w)) = this w
  ∧ collection (exec loadProjects (exec loadProjects w)) = collection w.
Proof.
  intros Hsome.
  destruct (loadProjects_frame w) as (Ht & _ & Hsearch & Hsort & _ & _).
  destruct (loadProjects_frame (exec loadProjects w)) as (Ht' & _).
  pose proof (collection_loadProjects w Hsome) as Hc.
  pose proof (collection_loadProjects (exec loadProjects w)
                (collection_valid_loadProjects w Hsome)) as Hc'.
  split; [|split; [by rewrite Ht' | by rewrite Hc']].
  rewrite (document_loadProjects (exec loadProjects w)).
  rewrite (searchedAndSorted_ext (exec loadProjects w) w)
    by (by rewrite ?Ht).
  rewrite Ht. by rewrite document_loadProjects.
Qed.

(** X13: If the current page is one of the pages [loadProjects] has just
    reported, a click on any button it wrote leaves the current page
    inside that range, and the page count as it was. *)
Theorem onPageClick_stays_in_range (w : World) (b : PageButton) :
  is_Some (store w !! projects (this w)) →
  1 ≤ currentPage (this w) ≤ reportedPages (exec loadProjects w) →
  b ∈ pagination (document (exec loadProjects w)) →
  let w' := exec (onPageClick b) (exec loadProjects w) in
  reportedPages w' = reportedPages (exec loadProjects w)
  ∧ 1 ≤ currentPage (this w') ≤ reportedPages w'.
Proof.
  intros Hsome Hrange Hb. cbn zeta.
  destruct (loadProjects_frame w) as (Ht & _ & Hsearch & Hsort & _ & _).
  pose proof (collection_loadProjects w Hsome) as Hc.
  rewrite reportedPages_loadProjects in Hrange.
  rewrite document_loadProjects in Hb.
  cbn [pagination with_pagination] in Hb.
  assert (Hset : ∀ n, 1 ≤ n ≤ reportedPages (exec loadProjects w) →
    reportedPages (exec (setPage (Num n)) (exec loadProjects w))
    = reportedPages (exec loadProjects w)
    ∧ 1 ≤ currentPage (this (exec (setPage (Num n)) (exec loadProjects w)))
        ≤ reportedPages (exec (setPage (Num n)) (exec loadProjects w))).
  { intros n Hn.
    rewrite setPage_Num_eq.
    destruct (loadProjects_frame (atPage n (exec loadProjects w)))
      as (Ht' & _).
    destruct (atPage_frame n (exec loadProjects w))
      as (Hf' & Hc' & Hd' & Hp').
    rewrite Ht', Hp'. rewrite !reportedPages_loadProjects in *.
    assert (Heq : searchedAndSorted (atPage n (exec loadProjects w))
                  = searchedAndSorted w).
    { apply searchedAndSorted_ext.
      - rewrite Hf'. f_equal. exact Ht.
      - rewrite Hc'. exact Hc.
      - rewrite Hd'. exact Hsearch.
      - rewrite Hd'. exact Hsort. }
    rewrite Heq. split; [reflexivity | exact Hn]. }
  rewrite reportedPages_loadProjects in Hset.
  rewrite onPageClick_eq.
  apply elem_of_paginationButtons in Hb
    as [-> | [(n & Hn & ->) | ->]]; cbn [pb_disabled pb_data_page].
  - case_bool_decide as Hp.
    + rewrite Ht. by rewrite reportedPages_loadProjects.
    + rewrite reportedPages_loadProjects. apply Hset. lia.
  - rewrite reportedPages_loadProjects. apply Hset. lia.
  - case_bool_decide as Hp.
    + rewrite Ht. by rewrite reportedPages_loadProjects.
    + rewrite reportedPages_loadProjects. apply Hset. lia.
Qed.

(** X14: Another sort key changes the order only: the records that match, the
    page count, the current page, the filter and the search text are what
    they would be without the change. *)
Theorem onSortChange_keeps_pages (w : World) (key : string) :
  let w' := exec (onSortChange key) w in
  returned sortedProjectsOf (withSort key w) ≡ₚ returned sortedProjectsOf w
  ∧ reportedPages w' = reportedPages (exec loadProjects w)
  ∧ this w' = this w
  ∧ searchInput_value (document w') = searchInput_value (document w)
  ∧ sortSelect_value (document w') = key.
Proof.
  cbn zeta.
  rewrite onSortChange_eq.
  destruct (loadProjects_frame (withSort key w))
    as (Ht & _ & Hsearch & Hsort & _ & _).
  assert (Hperm : searchedAndSorted (withSort key w) ≡ₚ searchedAndSorted w).
  { rewrite !searchedAndSorted_matches, !Array_sort_perm.
    reflexivity. }
  rewrite !returned_sortedProjectsOf, !reportedPages_loadProjects.
  rewrite Ht, Hsearch, Hsort. rewrite (Permutation_length Hperm).
  done.
Qed.

End Invariants.

Lemma loadProjects_idempotent_witness :
  document (exec (loadProjects (H := sampleHost))
                 (exec (loadProjects (H := sampleHost))
                       (sampleWorld datedProjects "" "nombre")))
  = document (exec (loadProjects (H := sampleHost))
                   (sampleWorld datedProjects "" "nombre")).
Proof.
  apply (loadProjects_idempotent (H := sampleHost)
           (sampleWorld datedProjects "" "nombre")).
  vm_compute. eexists. reflexivity.
Defined.

Lemma onPageClick_stays_in_range_witness :
  let w := sampleWorld bulkProjects "" "nombre" in
  let b := mkPageButton Siguiente false false 2 in
  let w' := exec (onPageClick (H := sampleHost) b)
                 (exec (loadProjects (H := sampleHost)) w) in
  reportedPages w' = reportedPages (exec (loadProjects (H := sampleHost)) w)
  ∧ 1 ≤ currentPage (this w') ≤ reportedPages w'.
Proof.
  apply (onPageClick_stays_in_range (H := sampleHost)
           (sampleWorld bulkProjects "" "nombre")
           (mkPageButton Siguiente false false 2)).
  - vm_compute. eexists. reflexivity.
  - vm_compute. split; discriminate.
  - vm_compute. apply list_elem_of_In. cbn. tauto.
Defined.

(** ** The filter buttons *)

Lemma setActiveFilter_eq (w : World) :
  exec setActiveFilter w
  = set_document
      (λ d, with_filterButtons
              (map (λ b, mkFilterButton (fb_data_filter b)
                           (bool_decide
                              (fb_data_filter b = currentFilter (this w))))
                   (filterButtons d)) d) w.
Proof. reflexivity. Qed.

Lemma elem_of_marked_buttons (f : string) (l : list FilterButton)
    (b : FilterButton) :
  b ∈ map (λ b, mkFilterButton (fb_data_filter b)
                  (bool_decide (fb_data_filter b = f))) l →
  fb_active b = true ↔ fb_data_filter b = f.
Proof.
  intros (b0 & <- & _)%list_elem_of_In%in_map_iff. cbn.
  apply bool_decide_eq_true.
Qed.

Lemma marked_buttons_data (f : string) (l : list FilterButton) :
  map fb_data_filter
      (map (λ b, mkFilterButton (fb_data_filter b)
                   (bool_decide (fb_data_filter b = f))) l)
  = map fb_data_filter l.
Proof. induction l as [|b l IH]; cbn; [done | by rewrite IH]. Qed.

Lemma marked_buttons_idem (f : string) (l : list FilterButton) :
  map (λ b, mkFilterButton (fb_data_filter b)
              (bool_decide (fb_data_filter b = f)))
      (map (λ b, mkFilterButton (fb_data_filter b)
                   (bool_decide (fb_data_filter b = f))) l)
  = map (λ b, mkFilterButton (fb_data_filter b)
                (bool_decide (fb_data_filter b = f))) l.
Proof. induction l as [|b l IH]; cbn; [done | by rewrite IH]. Qed.

Lemma setActiveFilter_frame (w : World) :
  (∀ b, b ∈ filterButtons (document (exec setActiveFilter w)) →
        fb_active b = true ↔ fb_data_filter b = currentFilter (this w))
  ∧ this (exec setActiveFilter w) = this w
  ∧ store (exec setActiveFilter w) = store w
  ∧ localStorage (exec setActiveFilter w) = localStorage w
  ∧ projectsGrid (document (exec setActiveFilter w))
    = projectsGrid (document w)
  ∧ pagination (document (exec setActiveFilter w))
    = pagination (document w).
Proof.
  rewrite !setActiveFilter_eq.
  cbn [set_document document filterButtons with_filterButtons this store
       localStorage projectsGrid pagination].
  split; [apply elem_of_marked_buttons | done].
Qed.

(** X15: [setActiveFilter] marks exactly the buttons whose [data-filter] is the
    current filter, keeps the buttons and their order, touches nothing
    else, and marks nothing more when run again. *)
Theorem setActiveFilter_marks_current (w : World) :
  let w' := exec setActiveFilter w in
  map fb_data_filter (filterButtons (document w'))
  = map fb_data_filter (filterButtons (document w))
  ∧ (∀ b, b ∈ filterButtons (document w') →
          fb_active b = true ↔ fb_data_filter b = currentFilter (this w))
  ∧ this w' = this w ∧ store w' = store w
  ∧ localStorage w' = localStorage w
  ∧ projectsGrid (document w') = projectsGrid (document w)
  ∧ pagination (document w') = pagination (document w)
  ∧ exec setActiveFilter w' = w'.
Proof.
  cbn zeta. rewrite !setActiveFilter_eq.
  cbn [set_document document filterButtons with_filterButtons this store
       localStorage projectsGrid pagination].
  split; [apply marked_buttons_data|].
  split; [apply elem_of_marked_buttons|].
  do 5 (split; [done|]). unfold set_document, with_filterButtons.
  cbn. by rewrite marked_buttons_idem.
Qed.

Section Buttons.
Context `{Host}.

Lemma handleFilterChange_eq (w : World) (filter_ : string) :
  exec (handleFilterChange filter_) w
  = exec loadProjects
      (atPage 1
         (exec setActiveFilter
            (set_localStorage (<["currentFilter" := filter_]>)
               (set_this (with_currentFilter filter_) w)))).
Proof. reflexivity. Qed.

(** X16: After [handleFilterChange filter], the buttons are those there were,
    and the active ones are exactly those whose [data-filter] is
    [filter]; the cards shown are cards of records of that status, unless
    the filter is ['todos']. *)
Theorem handleFilterChange_buttons_and_cards (w : World) (filter_ : string) :
  let w' := exec (handleFilterChange filter_) w in
  map fb_data_filter (filterButtons (document w'))
  = map fb_data_filter (filterButtons (document w))
  ∧ (∀ b, b ∈ filterButtons (document w') →
          fb_active b = true ↔ fb_data_filter b = filter_)
  ∧ (filter_ ≠ "todos" →
     ∀ card, card ∈ projectsGrid (document w') →
             ∃ p, card = createProjectCard p ∧ p ∈ collection w
                  ∧ estado p = filter_).
Proof.
  cbn zeta. rewrite handleFilterChange_eq.
  set (w1 := atPage 1 _).
  destruct (loadProjects_frame w1) as (_ & _ & _ & _ & Hb & _).
  rewrite Hb. split; [|split].
  - unfold w1. cbn [atPage set_this document]. rewrite setActiveFilter_eq.
    cbn [set_document document filterButtons with_filterButtons].
    apply marked_buttons_data.
  - intros b. unfold w1. cbn [atPage set_this document].
    rewrite setActiveFilter_eq.
    cbn [set_document document filterButtons with_filterButtons].
    apply elem_of_marked_buttons.
  - intros Hf card Hcard. rewrite document_loadProjects in Hcard.
    cbn [projectsGrid with_pagination with_projectsGrid] in Hcard.
    apply list_elem_of_In, in_map_iff in Hcard as (p & <- & Hp).
    apply list_elem_of_In in Hp.
    eapply elem_of_sublist in Hp; [|apply Array_slice_sublist].
    apply elem_of_searchedAndSorted in Hp as (Hin & [Ht|He] & _).
    + done.
    + exists p. done.
Qed.

End Buttons.

Lemma setActiveFilter_marks_current_witness :
  fb_active (mkFilterButton "pausados" true) = true
  ↔ fb_data_filter (mkFilterButton "pausados" true) = "pausados".
Proof.
  apply (proj1 (proj2 (setActiveFilter_marks_current
                         (set_this (with_currentFilter "pausados")
                            (sampleWorld sampleProjects "" "nombre"))))).
  vm_compute. apply list_elem_of_In. cbn. tauto.
Defined.

Lemma handleFilterChange_buttons_and_cards_witness :
  ∃ p, createProjectCard (H := sampleHost)
         (mkProject 3 "App de Gestion" "pausados" "2025-02-10"
            ["Angular"; "Express"; "PostgreSQL"] "Aplicacion para gestion")
       = createProjectCard (H := sampleHost) p
       ∧ p ∈ collection (sampleWorld sampleProjects "" "nombre")
       ∧ estado p = "pausados".
Proof.
  apply (proj2 (proj2 (handleFilterChange_buttons_and_cards (H := sampleHost)
                         (sampleWorld sampleProjects "" "nombre")
                         "pausados"))).
  - discriminate.
  - vm_compute. apply list_elem_of_In. cbn. tauto.
Defined.

(** ** The constructor and the saved filter *)

Section Startup.
Context `{Host}.

(** X17: The filter [handleFilterChange] saves is the filter a manager built
    later on the same local storage starts with, on page 1 and with no
    record yet; only the empty text comes back as ['todos'], as a missing
    entry does. *)
Theorem saved_filter_round_trip (w : World) (doc : Document)
    (filter_ : string) :
  let reloaded :=
    newDashboardManager doc
      (localStorage (exec (handleFilterChange filter_) w)) in
  (filter_ ≠ "" → currentFilter (this reloaded) = filter_)
  ∧ (filter_ = "" → currentFilter (this reloaded) = "todos")
  ∧ currentPage (this reloaded) = 1
  ∧ collection reloaded = []
  ∧ (∀ ls, ls !! "currentFilter" = None →
           currentFilter (this (newDashboardManager doc ls)) = "todos").
Proof.
  cbn zeta. rewrite handleFilterChange_eq.
  set (w1 := atPage 1 _).
  destruct (loadProjects_frame w1) as (_ & Hl & _).
  rewrite Hl. unfold w1.
  cbn [atPage set_this localStorage]. rewrite setActiveFilter_eq.
  cbn [set_document set_localStorage set_this localStorage].
  unfold newDashboardManager. rewrite lookup_insert_eq.
  cbn [this currentFilter currentPage].
  split; [intros Hf; by rewrite decide_False|].
  split; [intros Hf; by rewrite decide_True|].
  split; [done|]. split; [done|].
  intros ls Hls. by rewrite Hls.
Qed.


Lemma collection_ext (w w' : World) :
  this w = this w' → store w = store w' → collection w = collection w'.
Proof. unfold collection, elements. by intros -> ->. Qed.

Lemma init_eq (response : option (list Project)) (w : World) :
  exec (init response) w
  = exec setActiveFilter
      (exec loadProjects (exec (loadProjectsData_fetched response) w)).
Proof. reflexivity. Qed.



Lemma loadProjectsData_world (doc : Document) (ls : gmap string string)
    (projectsData : list Project) :
  let w0 := exec (loadProjectsData_fetched (Some projectsData))
                 (newDashboardManager doc ls) in
  collection w0 = projectsData
  ∧ is_Some (store w0 !! projects (this w0))
  ∧ this w0 = mkDashboardManager 1%nat
                (currentFilter (this (newDashboardManager doc ls))) 1
  ∧ document w0 = doc.
Proof. cbn zeta. repeat split. eexists. reflexivity. Qed.

(** [loadProjects] and then [setActiveFilter], from a world on page 1:
    the first ten matching records, sorted, and the current filter
    marked. *)
Lemma first_page_shown (w0 : World) :
  is_Some (store w0 !! projects (this w0)) →
  currentPage (this w0) = 1 →
  let w := exec setActiveFilter (exec loadProjects w0) in
  collection w = collection w0
  ∧ this w = this w0
  ∧ projectsGrid (document w)
    = map createProjectCard
          (take 10 (Array_sort
                      (compareProjects (sortSelect_value (document w0)))
                      (filter (matchesQuery w0) (collection w0))))
  ∧ (∀ b, b ∈ filterButtons (document w) →
          fb_active b = true ↔ fb_data_filter b = currentFilter (this w0)).
Proof.
  intros Hs0 Hp0. cbn zeta.
  destruct (loadProjects_frame w0) as (Ht & Hl & Hsearch & _).
  pose proof (collection_loadProjects w0 Hs0) as Hc.
  pose proof (document_loadProjects w0) as Hd.
  rewrite searchedAndSorted_matches, Hp0 in Hd.
  set (w1 := exec loadProjects w0) in *. clearbody w1.
  destruct (setActiveFilter_frame w1)
    as (Hb & Ht1 & Hs1 & Hl1 & Hg1 & Hpg1).
  cbn zeta in *.
  split; [|split; [|split]].
  - by rewrite (collection_ext _ w1 Ht1 Hs1).
  - by rewrite Ht1.
  - rewrite Hg1, Hd. cbn [projectsGrid with_pagination with_projectsGrid].
    unfold projectsPerPage. rewrite Array_slice_nonneg by lia.
    by rewrite drop_0.
  - intros b Hin. rewrite <- Ht. by apply Hb.
Qed.

(** X19: When the fetch succeeds, the collection is the records fetched, in
    their order, and [init] shows the first ten of those that pass the
    saved filter and the search text, sorted by the key of the document;
    the saved filter is the one marked. *)
Theorem startup_loaded (doc : Document) (ls : gmap string string)
    (projectsData : list Project) :
  let w := startup doc ls (Some projectsData) in
  let w0 := exec (loadProjectsData_fetched (Some projectsData))
                 (newDashboardManager doc ls) in
  collection w = projectsData
  ∧ currentPage (this w) = 1
  ∧ currentFilter (this w)
    = currentFilter (this (newDashboardManager doc ls))
  ∧ projectsGrid (document w)
    = map createProjectCard
          (take 10 (Array_sort (compareProjects (sortSelect_value doc))
                               (filter (matchesQuery w0) projectsData)))
  ∧ (∀ b, b ∈ filterButtons (document w) →
          fb_active b = true
          ↔ fb_data_filter b
            = currentFilter (this (newDashboardManager doc ls))).
Proof.
  cbn zeta. unfold startup. rewrite init_eq.
  destruct (loadProjectsData_world doc ls projectsData)
    as (Hc0 & Hs0 & Ht0 & Hd0).
  set (w0 := exec (loadProjectsData_fetched (Some projectsData)) _) in *.
  clearbody w0.
  destruct (first_page_shown w0 Hs0) as (Hc & Ht & Hg & Hb).
  { by rewrite Ht0. }
  rewrite Hc, Ht, Hg, Hc0, Hd0, Ht0. repeat split; try done.
  - intros Hact. apply Hb in Hact; [by rewrite Ht0 in Hact | done].
  - intros Hf. apply Hb; [done | by rewrite Ht0].
Qed.

End Startup.

(** ** The detail view *)


Lemma Array_find_None {A} (pred : A → bool) (l : list A) :
  Array_find pred l = None ↔ ∀ x, x ∈ l → pred x = false.
Proof.
  induction l as [|y l IH]; cbn.
  - split; [intros _ x Hx; by apply elem_of_nil in Hx | done].
  - destruct (pred y) eqn:Hy.
    + split; [done|]. intros Hall.
      specialize (Hall y ltac:(apply elem_of_cons; by left)). congruence.
    + rewrite IH. split.
      * intros Hall x [->|Hx]%elem_of_cons; auto.
      * intros Hall x Hx. apply Hall, elem_of_cons. by right.
Qed.


Section Details.
Context `{Host}.

Lemma onCardClick_eq (card : Card) (w : World) :
  (onCardClick card w).1
  = showProjectDetails
      <$> Array_find (idIs (Num (card_data_id card))) (collection w).
Proof. reflexivity. Qed.


(** X21: A card whose [data-id] is the identifier of no record of the
    collection finds nothing, and [showProjectDetails] fails on
    [undefined]: no modal. *)
Theorem onCardClick_unknown_id (w : World) (card : Card) :
  (∀ p, p ∈ collection w → id p ≠ card_data_id card) →
  (onCardClick card w).1 = None
  ∧ exec (onCardClick card) w = w.
Proof.
  intros Hnone. split; [|reflexivity].
  rewrite onCardClick_eq.
  replace (Array_find _ _) with (@None Project); [done|].
  symmetry. apply Array_find_None. intros p Hp. cbn.
  apply bool_decide_eq_false_2. by apply Hnone.
Qed.

(** ** The first version of [loadProjects] *)

Lemma legacy_loadProjects_grid (w : World) :
  projectsGrid (document (exec legacy_loadProjects w))
  = map createProjectCard (returned filterProjects w).
Proof.
  unfold returned.
  destruct (decide (currentFilter (this w) = "todos")) as [Hf|Hf].
  - unfold exec, legacy_loadProjects, mbind, M_bind. cbn zeta.
    by rewrite filterProjects_todos.
  - unfold exec, legacy_loadProjects, mbind, M_bind. cbn zeta.
    by rewrite filterProjects_other.
Qed.

(** X22: With an empty search text, a sort key the comparator does not know,
    page 1 and no more than 10 records passing the filter, [loadProjects]
    shows what its first version showed: the cards of the filtered
    records, in the order of the collection. *)
Theorem loadProjects_extends_legacy (w : World) :
  lowersAscii →
  searchInput_value (document w) = "" →
  ¬ recognizedSortKey (sortSelect_value (document w)) →
  currentPage (this w) = 1 →
  (length (returned filterProjects w) ≤ 10)%nat →
  projectsGrid (document (exec loadProjects w))
  = projectsGrid (document (exec legacy_loadProjects w)).
Proof.
  intros Hascii Hsearch Hkey Hpage Hlen.
  rewrite legacy_loadProjects_grid, document_loadProjects.
  cbn [projectsGrid with_pagination with_projectsGrid]. f_equal.
  assert (Hsorted : searchedAndSorted w = returned filterProjects w).
  { unfold searchedAndSorted. rewrite Hsearch, (Hascii "") by constructor.
    cbn [asciiLowerCase].
    rewrite Array_sort_never_greater.
    - clear Hlen. induction (returned filterProjects w) as [|p l IH]; [done|].
      rewrite filter_cons_True by apply includes_empty.
      f_equal. apply IH.
    - intros x y. unfold SortCompare.
      by rewrite compareProjects_unrecognized. }
  rewrite Hsorted, Hpage. unfold projectsPerPage.
  rewrite Array_slice_nonneg by lia. cbn [Z.to_nat].
  rewrite drop_0. apply take_ge. cbn. lia.
Qed.

End Details.


Lemma onCardClick_unknown_id_witness :
  (onCardClick (H := sampleHost)
     (mkCard 99 "Otro" JUndefined JUndefined "" [])
     (sampleWorld sampleProjects "" "nombre")).1 = None
  ∧ exec (onCardClick (H := sampleHost)
            (mkCard 99 "Otro" JUndefined JUndefined "" []))
         (sampleWorld sampleProjects "" "nombre")
    = sampleWorld sampleProjects "" "nombre".
Proof.
  apply (onCardClick_unknown_id (H := sampleHost)
           (sampleWorld sampleProjects "" "nombre")).
  intros p Hp. vm_compute in Hp.
  repeat (apply elem_of_cons in Hp as [->|Hp]; [discriminate|]).
  by apply elem_of_nil in Hp.
Defined.

Lemma loadProjects_extends_legacy_witness :
  projectsGrid
    (document (exec (loadProjects (H := sampleHost))
                    (sampleWorld datedProjects "" "tecnologias")))
  = projectsGrid
      (document (exec (legacy_loadProjects (H := sampleHost))
                      (sampleWorld datedProjects "" "tecnologias"))).
Proof.
  apply (loadProjects_extends_legacy (H := sampleHost)
           (sampleWorld datedProjects "" "tecnologias")).
  - intros s _. reflexivity.
  - reflexivity.
  - unfold recognizedSortKey. cbn. intros [?|[?|?]]; discriminate.
  - reflexivity.
  - vm_compute. lia.
Defined.

Example modal_of_blog :
  (onCardClick (H := sampleHost)
     (mkCard 2 "Blog Personal" (JString "status-completed")
             (JString "Completado") "2025-02-15" ["Vue.js"; "Firebase"])
     (sampleWorld sampleProjects "" "nombre")).1
  = Some (mkModal "Blog Personal" (JString "Completado") "2025-02-15"
                  "Vue.js, Firebase" "Blog personal").
Proof. reflexivity. Qed.

Lemma loadProjects_cards_sound_witness :
  ∃ p, createProjectCard (H := sampleHost)
         (mkProject 2 "Blog Personal" "completados" "2025-02-15"
            ["Vue.js"; "Firebase"] "Blog personal")
       = createProjectCard (H := sampleHost) p
       ∧ p ∈ collection (sampleWorld sampleProjects "" "nombre")
       ∧ ("todos" = "todos" ∨ estado p = "todos")
       ∧ includes (asciiLowerCase (nombre p)) "blog" = true.
Proof.
  apply (proj2 (loadProjects_cards_sound (H := sampleHost)
                  (withSearch "blog"
                     (sampleWorld sampleProjects "" "nombre")))).
  vm_compute. apply list_elem_of_In. cbn. tauto.
Defined.

Lemma saved_filter_round_trip_witness :
  currentFilter
    (this (newDashboardManager (sampleDocument "" "nombre")
             (localStorage
                (exec (handleFilterChange (H := sampleHost) "pausados")
                      (sampleWorld sampleProjects "" "nombre")))))
  = "pausados".
Proof.
  apply (saved_filter_round_trip (H := sampleHost)
           (sampleWorld sampleProjects "" "nombre")
           (sampleDocument "" "nombre") "pausados").
  discriminate.
Defined.


Lemma startup_loaded_witness :
  fb_active (mkFilterButton "pausados" true) = true
  ↔ fb_data_filter (mkFilterButton "pausados" true)
    = currentFilter
        (this (newDashboardManager (sampleDocument "" "nombre")
                 {[ "currentFilter" := "pausados" ]})).
Proof.
  apply (proj2 (proj2 (proj2 (proj2
           (startup_loaded (H := sampleHost)
              (sampleDocument "" "nombre")
              {[ "currentFilter" := "pausados" ]} sampleProjects))))).
  vm_compute. apply list_elem_of_In. cbn. tauto.
Defined.

Example startup_with_saved_filter :
  let w := startup (H := sampleHost) (sampleDocument "" "nombre")
                   {[ "currentFilter" := "pausados" ]}
                   (Some sampleProjects) in
  map card_title (projectsGrid (document w)) = ["App de Gestion"]
  ∧ map fb_active (filterButtons (document w)) = [false; false; false; true]
  ∧ reportedPages w = 1.
Proof. cbn zeta. repeat split; reflexivity. Qed.
